(** * txt-to-epub-converter: the text segmentation pipeline of [lib/index.js]

    A shallow embedding of the pure core of [TxtToEpubConverter]
    (numeral normalisation, line filtering, chapter segmentation,
    duplicate removal, word counting) together with the properties the
    specification states about it.

    Modelling conventions.
    - A JavaScript string is the list of its UTF-16 code units
      ([jsstring]); indexing, [length], [substring] and regular expressions
      without the [u] flag all work on code units.
    - A JavaScript number is an IEEE double.  The numbers of this
      program are the non-negative integer-valued doubles and +Infinity;
      each is represented by its value in [Z], +Infinity by 2^1024, the
      first power of two beyond the finite doubles.  Sums and products
      are rounded to the nearest double ([roundDouble]); below 2^53 they
      are exact.  A numeral of at most 15 characters stays in that range
      ([chineseNumeralToNumber_range]).
    - [null] is [None].
    - [console.log] narration is not modelled. *)

From Stdlib Require Import String Ascii.
From Stdlib Require Import ZArith List Bool Lia Sorted Permutation.
Import ListNotations.
Open Scope Z_scope.

(** ** Strings *)

Definition jsstring := list Z.

(** Source literals are written as Rocq strings (UTF-8 bytes) and decoded
    to UTF-16 code units. *)
Fixpoint utf8_decode (bs : list Z) : jsstring :=
  match bs with
  | [] => []
  | b0 :: r0 =>
      if b0 <? 128 then b0 :: utf8_decode r0
      else if b0 <? 224 then
        match r0 with
        | b1 :: r1 => ((b0 mod 32) * 64 + b1 mod 64) :: utf8_decode r1
        | [] => []
        end
      else if b0 <? 240 then
        match r0 with
        | b1 :: b2 :: r2 =>
            ((b0 mod 16) * 4096 + (b1 mod 64) * 64 + b2 mod 64) :: utf8_decode r2
        | _ => []
        end
      else
        match r0 with
        | b1 :: b2 :: b3 :: r3 =>
            let cp := (b0 mod 8) * 262144 + (b1 mod 64) * 4096
                      + (b2 mod 64) * 64 + b3 mod 64 - 65536 in
            (55296 + cp / 1024) :: (56320 + cp mod 1024) :: utf8_decode r3
        | _ => []
        end
  end.

Definition js (s : string) : jsstring :=
  utf8_decode (map (fun a => Z.of_nat (nat_of_ascii a)) (list_ascii_of_string s)).

Definition NL : Z := 10.

Definition jsstring_eqb (a b : jsstring) : bool :=
  if list_eq_dec Z.eq_dec a b then true else false.

Definition isEmpty (s : jsstring) : bool :=
  match s with [] => true | _ => false end.

Fixpoint takeWhile {A} (p : A -> bool) (l : list A) : list A :=
  match l with
  | [] => []
  | x :: r => if p x then x :: takeWhile p r else []
  end.

Fixpoint dropWhile {A} (p : A -> bool) (l : list A) : list A :=
  match l with
  | [] => []
  | x :: r => if p x then dropWhile p r else l
  end.

(** The code units matched by [\s] and stripped by [String.prototype.trim]
    (ECMAScript WhiteSpace and LineTerminator). *)
Definition isSpace (c : Z) : bool :=
  ((9 <=? c) && (c <=? 13)) || (c =? 32) || (c =? 160) || (c =? 5760)
  || ((8192 <=? c) && (c <=? 8202)) || (c =? 8232) || (c =? 8233)
  || (c =? 8239) || (c =? 8287) || (c =? 12288) || (c =? 65279).

(** The code units [.] does not match (no [s] flag). *)
Definition isLineTerminator (c : Z) : bool :=
  (c =? 10) || (c =? 13) || (c =? 8232) || (c =? 8233).

(** [\d] without the [u] flag. *)
Definition isDigit (c : Z) : bool := (48 <=? c) && (c <=? 57).

Definition trimStart (s : jsstring) : jsstring := dropWhile isSpace s.

Fixpoint trimEnd (s : jsstring) : jsstring :=
  match s with
  | [] => []
  | c :: r =>
      match trimEnd r with
      | [] => if isSpace c then [] else [c]
      | r' => c :: r'
      end
  end.

(** [String.prototype.trim] *)
Definition trim (s : jsstring) : jsstring := trimEnd (trimStart s).

(** [content.split('\n')]: always at least one piece. *)
Fixpoint split (s : jsstring) : list jsstring :=
  match s with
  | [] => [[]]
  | c :: r =>
      if c =? NL then [] :: split r
      else match split r with
           | [] => [[c]]
           | l :: ls => (c :: l) :: ls
           end
  end.

(** [lines.join('\n')] *)
Fixpoint join (ls : list jsstring) : jsstring :=
  match ls with
  | [] => []
  | [l] => l
  | l :: rest => l ++ NL :: join rest
  end.

(** [a.startsWith(b)] on code units, used for [String.prototype.includes]. *)
Fixpoint isPrefix (p s : jsstring) : bool :=
  match p, s with
  | [], _ => true
  | _ :: _, [] => false
  | a :: p', b :: s' => (a =? b) && isPrefix p' s'
  end.

(** [line.includes(keyword)] *)
Fixpoint includes (line keyword : jsstring) : bool :=
  isPrefix keyword line
  || match line with
     | [] => false
     | _ :: r => includes r keyword
     end.

(** ** Numbers and decimal text *)

Definition Infinity : Z := 2 ^ 1024.

(** The double nearest to a non-negative integer, ties going to the even
    significand; +Infinity when the nearest value of 53 bits is 2^1024
    or more. *)
Definition roundDouble (z : Z) : Z :=
  if z <? 2 ^ 53 then z
  else
    let e := Z.log2 z - 52 in
    let q := z / 2 ^ e in
    let r := z mod 2 ^ e in
    let half := 2 ^ (e - 1) in
    let q' := if (half <? r) || ((r =? half) && Z.odd q) then q + 1 else q in
    let v := q' * 2 ^ e in
    if Infinity <=? v then Infinity else v.

(** [a + b] and [a * b] on numbers.  +Infinity absorbs: its sum and its
    product with a number of 1 or more are 2^1024 or more.  The program
    multiplies by units of 10 or more only, so no product is NaN. *)
Definition fadd (a b : Z) : Z := roundDouble (a + b).
Definition fmul (a b : Z) : Z := roundDouble (a * b).

(** [a - b], as the comparator of the sort needs it: the sort reads NaN,
    the difference of +Infinity and itself, as 0. *)
Definition fsub (a b : Z) : Z :=
  if a =? b then 0
  else if b <? a then (if a =? Infinity then Infinity else roundDouble (a - b))
  else (if b =? Infinity then - Infinity else - roundDouble (b - a)).

(** [parseInt(s, 10)] on the strings the code passes to it, a run of
    ASCII digits (a [\d+] capture, or a string accepted by [/^\d+$/]):
    the number nearest to the decimal value. *)
Definition parseInt (s : jsstring) : Z :=
  roundDouble (fold_left (fun acc d => 10 * acc + (d - 48)) s 0).

Fixpoint digitsFuel (fuel : nat) (n : Z) (acc : jsstring) : jsstring :=
  let acc' := (48 + n mod 10) :: acc in
  match fuel with
  | O => acc'
  | S f => if n <? 10 then acc' else digitsFuel f (n / 10) acc'
  end.

(** The decimal digits of a non-negative integer. *)
Definition digitsOf (n : Z) : jsstring :=
  digitsFuel (Z.to_nat (Z.log2 n)) n [].

(** Number::toString prints the integer with the fewest significant
    digits that rounds to the number.  [candidate x k] is the integer of
    [k] significant digits that rounds to [x], if there is one: the
    nearer of the two neighbours of [x] at that precision, the one with
    the even last digit when both are as near. *)
Definition candidate (x k : Z) : option Z :=
  let p := 10 ^ (Z.of_nat (length (digitsOf x)) - k) in
  let lo := x / p * p in
  let hi := lo + p in
  let okLo := roundDouble lo =? x in
  let okHi := roundDouble hi =? x in
  if okLo && okHi then
    Some (if x - lo <? hi - x then lo
          else if hi - x <? x - lo then hi
          else if Z.even (x / p) then lo else hi)
  else if okLo then Some lo
  else if okHi then Some hi
  else None.

Fixpoint shortestFrom (x : Z) (k : Z) (fuel : nat) : Z :=
  match fuel with
  | O => x
  | S f => match candidate x k with
           | Some v => v
           | None => shortestFrom x (k + 1) f
           end
  end.

(** At most 17 significant digits are needed; below 2^53 every integer
    is a number, and its digits are all needed. *)
Definition shortest (x : Z) : Z :=
  if x <? 2 ^ 53 then x else shortestFrom x 1 17.

Definition stripTrailingZeros (s : jsstring) : jsstring :=
  rev (dropWhile (fun c => c =? 48) (rev s)).

(** The exponent form of a number of 22 digits or more: its first
    digit, the other significant digits after a point, and the
    exponent. *)
Definition exponentForm (v : Z) : jsstring :=
  match digitsOf v with
  | [] => []
  | d :: tl =>
      let exponent := 101 :: 43 :: digitsOf (Z.of_nat (length tl)) in
      match stripTrailingZeros tl with
      | [] => d :: exponent
      | frac => d :: 46 :: frac ++ exponent
      end
  end.

(** [`${n}`] for a number. *)
Definition numberToString (n : Z) : jsstring :=
  if Infinity <=? n then js "Infinity"
  else
    let v := shortest n in
    if v <? 10 ^ 21 then digitsOf v else exponentForm v.

(** ** chineseNumeralToNumber (lines 102-135) *)

Definition c_ling : Z := 38646.   (* 零 *)
Definition c_yi : Z := 19968.     (* 一 *)
Definition c_er : Z := 20108.     (* 二 *)
Definition c_san : Z := 19977.    (* 三 *)
Definition c_si : Z := 22235.     (* 四 *)
Definition c_wu : Z := 20116.     (* 五 *)
Definition c_liu : Z := 20845.    (* 六 *)
Definition c_qi : Z := 19971.     (* 七 *)
Definition c_ba : Z := 20843.     (* 八 *)
Definition c_jiu : Z := 20061.    (* 九 *)
Definition c_liang : Z := 20004.  (* 两 *)
Definition c_shi : Z := 21313.    (* 十 *)
Definition c_bai : Z := 30334.    (* 百 *)
Definition c_qian : Z := 21315.   (* 千 *)
Definition c_wan : Z := 19975.    (* 万 *)
Definition c_yi8 : Z := 20159.    (* 亿 *)
Definition c_di : Z := 31532.     (* 第 *)
Definition c_zhang : Z := 31456.  (* 章 *)

(** [map]: the digit symbols. *)
Definition digitMap (ch : Z) : option Z :=
  if ch =? c_ling then Some 0
  else if ch =? c_yi then Some 1
  else if ch =? c_er then Some 2
  else if ch =? c_san then Some 3
  else if ch =? c_si then Some 4
  else if ch =? c_wu then Some 5
  else if ch =? c_liu then Some 6
  else if ch =? c_qi then Some 7
  else if ch =? c_ba then Some 8
  else if ch =? c_jiu then Some 9
  else if ch =? c_liang then Some 2
  else None.

(** [unitMap]: the unit symbols. *)
Definition unitMap (ch : Z) : option Z :=
  if ch =? c_shi then Some 10
  else if ch =? c_bai then Some 100
  else if ch =? c_qian then Some 1000
  else if ch =? c_wan then Some 10000
  else if ch =? c_yi8 then Some 100000000
  else None.

(** The three loop variables [result], [section], [number]. *)
Record acc := mkAcc { result : Z; section : Z; number : Z }.

(** [number || 1] *)
Definition orOne (n : Z) : Z := if n =? 0 then 1 else n.

(** One iteration of the [for] loop (lines 116-131). *)
Definition numeralStep (a : acc) (ch : Z) : acc :=
  match digitMap ch with
  | Some d => mkAcc (result a) (section a) d
  | None =>
      match unitMap ch with
      | Some unit =>
          if 10000 <=? unit then
            let section' := fmul (fadd (section a) (number a)) unit in
            mkAcc (fadd (result a) section') 0 0
          else
            mkAcc (result a) (fadd (section a) (fmul (orOne (number a)) unit)) 0
      | None => mkAcc (result a) (section a) 0
      end
  end.

Fixpoint numeralLoop (chinese : jsstring) (a : acc) : acc :=
  match chinese with
  | [] => a
  | ch :: rest => numeralLoop rest (numeralStep a ch)
  end.

Definition chineseNumeralToNumber (chinese : jsstring) : option Z :=
  if isEmpty chinese then None
  else if forallb isDigit chinese then Some (parseInt chinese)
  else
    let a := numeralLoop chinese (mkAcc 0 0 0) in
    (* [number || 0] is [number]: it always holds a number *)
    Some (fadd (fadd (result a) (section a)) (number a)).

(** ** splitIntoChapters (lines 142-196) *)

Record chapter := mkChapter { title : jsstring; data : jsstring }.

(** The character class of the heading pattern: the keys of [map] and
    [unitMap], and [\d]. *)
Definition isNumeralChar (c : Z) : bool :=
  match digitMap c, unitMap c with
  | None, None => isDigit c
  | _, _ => true
  end.

Definition notLineTerminator (c : Z) : bool := negb (isLineTerminator c).

(** [line.match(...)] with the heading pattern of line 152: 第, then
    capture 1, one or more characters of the class above, then 章, then
    an optional group of [\s*] followed by capture 2, any characters but
    line terminators.
    The result holds capture 1 and capture 2; capture 2 is [None]
    (undefined) when the optional group matched nothing.  The class does
    not contain 章, so the greedy run of capture 1 is the maximal one; the
    tail of the pattern always succeeds, so the white space run and
    capture 2 are maximal too. *)
Definition headingMatch (line : jsstring) : option (jsstring * option jsstring) :=
  match line with
  | [] => None
  | c :: rest =>
      if c =? c_di then
        match takeWhile isNumeralChar rest, dropWhile isNumeralChar rest with
        | (_ :: _) as chineseNum, z :: tail =>
            if z =? c_zhang then
              let cap := takeWhile notLineTerminator (dropWhile isSpace tail) in
              Some (chineseNum,
                    if isEmpty (takeWhile isSpace tail) && isEmpty cap
                    then None else Some cap)
            else None
        | _, _ => None
        end
      else None
  end.

(** [chapterMatch[2] ? chapterMatch[2].trim() : ''] *)
Definition suffixOf (group2 : option jsstring) : jsstring :=
  match group2 with
  | Some ((_ :: _) as s) => trim s
  | _ => []
  end.

Definition SP : Z := 32.

(** Lines 165-172: the title of the chapter a heading line opens. *)
Definition headingTitle (line chineseNum : jsstring) (group2 : option jsstring)
  : jsstring :=
  let suffix := suffixOf group2 in
  match chineseNumeralToNumber chineseNum with
  | Some arabic =>
      trim (c_di :: numberToString arabic
              ++ c_zhang :: (if isEmpty suffix then [] else SP :: suffix))
  | None => trim line
  end.

Definition placeholder : jsstring := js "(本章暂无内容)".

(** [currentContent.join('\n').trim()], replaced by the placeholder when
    empty. *)
Definition chapterBody (currentContent : list jsstring) : jsstring :=
  let chapterData := trim (join currentContent) in
  if isEmpty chapterData then placeholder else chapterData.

Record segState := mkSeg {
  chapters : list chapter;
  currentChapter : option jsstring;      (* [null] is [None] *)
  currentContent : list jsstring }.

(** [if (currentChapter)]: neither [null] nor the empty string. *)
Definition truthy (s : option jsstring) : option jsstring :=
  match s with
  | Some ((_ :: _) as t) => Some t
  | _ => None
  end.

(** Save the chapter in progress, if any. *)
Definition flush (st : segState) : list chapter :=
  match truthy (currentChapter st) with
  | Some t => chapters st ++ [mkChapter t (chapterBody (currentContent st))]
  | None => chapters st
  end.

(** One iteration of the loop over the lines (lines 150-179). *)
Definition segmentStep (st : segState) (line : jsstring) : segState :=
  match headingMatch line with
  | Some (chineseNum, group2) =>
      mkSeg (flush st) (Some (headingTitle line chineseNum group2)) []
  | None =>
      match truthy (currentChapter st) with
      | Some _ => mkSeg (chapters st) (currentChapter st) (currentContent st ++ [line])
      | None => st
      end
  end.

(** The chapters before duplicate removal (lines 144-188). *)
Definition segment (lines : list jsstring) : list chapter :=
  flush (fold_left segmentStep lines (mkSeg [] None [])).

(** ** getFirstNChars (lines 204-207) *)

(** The complement of [[^\u4e00-\u9fa5a-zA-Z0-9]]. *)
Definition isFingerprintChar (c : Z) : bool :=
  ((19968 <=? c) && (c <=? 40869))
  || ((97 <=? c) && (c <=? 122))
  || ((65 <=? c) && (c <=? 90))
  || ((48 <=? c) && (c <=? 57)).

Definition getFirstNChars (text : jsstring) (n : nat) : jsstring :=
  firstn n (filter isFingerprintChar text).

(** The default [n = 5]. *)
Definition fingerprint (text : jsstring) : jsstring := getFirstNChars text 5.

(** ** removeDuplicateChapters (lines 214-278) *)

(** [title.match(/^第(\d+)章/)] followed by [parseInt(match[1], 10)]. *)
Definition chapterNumber (t : jsstring) : option Z :=
  match t with
  | [] => None
  | c :: rest =>
      if c =? c_di then
        match takeWhile isDigit rest, dropWhile isDigit rest with
        | (_ :: _) as ds, z :: _ => if z =? c_zhang then Some (parseInt ds) else None
        | _, _ => None
        end
      else None
  end.

(** [chapterMap]: a [Map] iterates in insertion order of its keys, so it
    is an association list. *)
Definition chapterMapT := list (Z * list chapter).

(** [if (!chapterMap.has(num)) chapterMap.set(num, []);
     chapterMap.get(num).push(chapter)] *)
Fixpoint mapPush (num : Z) (ch : chapter) (m : chapterMapT) : chapterMapT :=
  match m with
  | [] => [(num, [ch])]
  | (k, l) :: m' =>
      if k =? num then (k, l ++ [ch]) :: m' else (k, l) :: mapPush num ch m'
  end.

Definition groupStep (m : chapterMapT) (ch : chapter) : chapterMapT :=
  match chapterNumber (title ch) with
  | Some num => mapPush num ch m
  | None => m
  end.

(** Lines 221-230. *)
Definition groupByNumber (chs : list chapter) : chapterMapT :=
  fold_left groupStep chs [].

(** The inner loop over [kept] (lines 245-253). *)
Definition isDuplicate (kept : list chapter) (current : chapter) : bool :=
  let currentFirst5 := fingerprint (data current) in
  existsb (fun keptChapter =>
             jsstring_eqb currentFirst5 (fingerprint (data keptChapter))
             && negb (isEmpty currentFirst5)) kept.

(** The loop [for (let i = 1; ...)] (lines 241-258). *)
Fixpoint keptLoop (kept rest : list chapter) : list chapter :=
  match rest with
  | [] => kept
  | current :: rest' =>
      if isDuplicate kept current then keptLoop kept rest'
      else keptLoop (kept ++ [current]) rest'
  end.

(** The body of the loop over the map entries (lines 236-261): what one
    group contributes to [uniqueChapters]. *)
Definition dedupGroup (chapterList : list chapter) : list chapter :=
  match chapterList with
  | [] => []          (* a group is created together with its first chapter *)
  | [c] => [c]
  | c0 :: rest => keptLoop [c0] rest
  end.

(** The comparator of the final sort (lines 265-272). *)
Definition compareChapters (a b : chapter) : Z :=
  match chapterNumber (title a), chapterNumber (title b) with
  | Some na, Some nb => fsub na nb
  | _, _ => 0
  end.

(** [Array.prototype.sort] is stable; an element moves in front of the
    ones the comparator puts it strictly before. *)
Fixpoint insertSorted (cmp : chapter -> chapter -> Z) (x : chapter)
  (l : list chapter) : list chapter :=
  match l with
  | [] => [x]
  | y :: r => if cmp x y <=? 0 then x :: l else y :: insertSorted cmp x r
  end.

Definition sortBy (cmp : chapter -> chapter -> Z) (l : list chapter)
  : list chapter :=
  fold_right (insertSorted cmp) [] l.

Definition removeDuplicateChapters (chs : list chapter) : list chapter :=
  let chapterMap := groupByNumber chs in
  let uniqueChapters :=
    fold_left (fun uniq entry => uniq ++ dedupGroup (snd entry)) chapterMap [] in
  sortBy compareChapters uniqueChapters.

Definition splitIntoChapters (content : jsstring) : list chapter :=
  removeDuplicateChapters (segment (split content)).

(** ** countTotalWords (lines 300-307) *)

Definition countTotalWords (chs : list chapter) : Z :=
  fold_left (fun totalWords ch =>
               totalWords
               + Z.of_nat (length (filter (fun c => negb (isSpace c)) (data ch))))
            chs 0.

(** ** processTextFile (lines 65-95) *)

(** [this.options], without the style sheet. *)
Record converterOptions := mkOptions {
  filterAds : bool;
  adKeywords : list jsstring }.

Inductive error :=
| MissingParameters            (* 缺少必要参数 *)
| FileNotFound (filePath : jsstring)   (* 文件不存在 *)
| NoChaptersFound              (* 未找到章节，请检查文件格式 *)
| PackagingFailed.             (* the rejected promise of the packager *)

Inductive outcome (A : Type) :=
| Returned (a : A)
| Thrown (e : error).
Arguments Returned {A} a.
Arguments Thrown {A} e.

Definition BOM : Z := 65279.

(** Lines 75-78. *)
Definition stripBOM (content : jsstring) : jsstring :=
  match content with
  | c :: r => if c =? BOM then r else content
  | [] => []
  end.

(** [lines.filter(line => !adKeywords.some(keyword => line.includes(keyword)))] *)
Definition filterLines (keywords : list jsstring) (lines : list jsstring)
  : list jsstring :=
  filter (fun line => negb (existsb (fun keyword => includes line keyword) keywords))
         lines.

(** The text of an existing file after the byte-order mark and the
    advertisement lines are removed. *)
Definition processContent (opts : converterOptions) (content : jsstring)
  : jsstring :=
  let content := stripBOM content in
  if filterAds opts
  then join (filterLines (adKeywords opts) (split content))
  else content.

(** [fs] gives the decoded text of the files that exist. *)
Definition processTextFile (fs : jsstring -> option jsstring)
  (opts : converterOptions) (filePath : jsstring) : outcome jsstring :=
  match fs filePath with
  | None => Thrown (FileNotFound filePath)
  | Some content => Returned (processContent opts content)
  end.

(** ** convertTxtToEpub (lines 409-520) *)

Record convertOptions := mkConvert {
  inputFile : option jsstring;
  outputFile : option jsstring;
  bookTitle : option jsstring;
  author : option jsstring;
  maker : option jsstring;
  optAdKeywords : option (list jsstring) }.

Record conversionResult := mkResult {
  resOutputFile : jsstring;
  resChapters : Z;
  resTotalWords : Z }.

(** [!x] is false: neither [undefined] nor the empty string. *)
Definition given (x : option jsstring) : bool :=
  match x with
  | Some (_ :: _) => true
  | _ => false
  end.

(** Lines 431-436: the options the conversion runs with. *)
Definition effectiveOptions (self : converterOptions) (kw : option (list jsstring))
  : converterOptions :=
  match kw with
  | Some ((_ :: _) as ks) => mkOptions true ks
  | _ => mkOptions false (adKeywords self)
  end.

(** The conversion up to its result.  [packageEpub] stands for lines
    451-491, the templating of the pages and the external packager; it
    gives [true] when the packager's promise resolves. *)
Definition convertTxtToEpub
  (fs : jsstring -> option jsstring)
  (packageEpub : convertOptions -> list chapter -> Z -> bool)
  (self : converterOptions) (options : convertOptions)
  : outcome conversionResult :=
  match inputFile options, outputFile options with
  | Some input, Some output =>
      if given (inputFile options) && given (outputFile options)
         && given (bookTitle options) && given (author options)
         && given (maker options)
      then
        match processTextFile fs (effectiveOptions self (optAdKeywords options)) input with
        | Thrown e => Thrown e
        | Returned processedContent =>
            let chapters := splitIntoChapters processedContent in
            if Nat.eqb (length chapters) 0 then Thrown NoChaptersFound
            else
              let totalWords := countTotalWords chapters in
              if packageEpub options chapters totalWords
              then Returned (mkResult output (Z.of_nat (length chapters)) totalWords)
              else Thrown PackagingFailed
        end
      else Thrown MissingParameters
  | _, _ => Thrown MissingParameters
  end.

(** ** The normaliser as the specification words it *)

Inductive symbol :=
| DigitSym (d : Z)
| UnitSym (u : Z)
| OtherSym.

Definition digitSymbols : list (Z * Z) :=
  [(c_ling, 0); (c_yi, 1); (c_er, 2); (c_san, 3); (c_si, 4); (c_wu, 5);
   (c_liu, 6); (c_qi, 7); (c_ba, 8); (c_jiu, 9); (c_liang, 2)].

Definition unitSymbols : list (Z * Z) :=
  [(c_shi, 10); (c_bai, 100); (c_qian, 1000); (c_wan, 10000);
   (c_yi8, 100000000)].

Definition lookupSym (tbl : list (Z * Z)) (ch : Z) : option Z :=
  option_map snd (find (fun kv => fst kv =? ch) tbl).

Definition classify (ch : Z) : symbol :=
  match lookupSym digitSymbols ch, lookupSym unitSymbols ch with
  | Some d, _ => DigitSym d
  | None, Some u => UnitSym u
  | None, None => OtherSym
  end.

(** One character of the single pass over (result, section, pending
    digit). *)
Definition specStep (st : Z * Z * Z) (ch : Z) : Z * Z * Z :=
  let '(res, sec, pending) := st in
  match classify ch with
  | DigitSym d => (res, sec, d)
  | UnitSym u =>
      if u <? 10000
      then (res, sec + (if pending =? 0 then 1 else pending) * u, 0)
      else (res + (sec + pending) * u, 0, 0)
  | OtherSym => (res, sec, 0)
  end.

(** The decimal value of a string of ASCII digits. *)
Fixpoint decimalValue (s : jsstring) : Z :=
  match s with
  | [] => 0
  | d :: r => (d - 48) * 10 ^ Z.of_nat (length r) + decimalValue r
  end.

Definition normalizeSpec (token : jsstring) : option Z :=
  match token with
  | [] => None
  | _ :: _ =>
      if forallb isDigit token then Some (decimalValue token)
      else
        let '(res, sec, pending) := fold_left specStep token (0, 0, 0) in
        Some (res + sec + pending)
  end.

(** ** Re-serialisation of a chapter list to plain text *)

(** Every chapter as its heading line followed by its body, one after
    the other. *)
Definition serialize (chs : list chapter) : jsstring :=
  join (flat_map (fun ch => [title ch; data ch]) chs).

(** ** convertToHtml (lines 285-293) *)

(** [text.split('\n').map(line => line.trim()).filter(line => line.length > 0)] *)
Definition paragraphs (text : jsstring) : list jsstring :=
  filter (fun line => negb (isEmpty line)) (map trim (split text)).

Definition wrapParagraph (line : jsstring) : jsstring :=
  js "<p>" ++ line ++ js "</p>".

Definition convertToHtml (text : jsstring) : jsstring :=
  join (map wrapParagraph (paragraphs text)).

(** ** The command-line script: the advertisement keywords (lines 66-68) *)




(** ** Notions used in the statements *)

(** A number: not negative, and its own rounding. *)
Definition isNumber (n : Z) : Prop := 0 <= n /\ roundDouble n = n.

(** The value the algorithm of the specification gives the loop. *)
Definition specValue (token : jsstring) : Z :=
  let '(res, sec, pending) := fold_left specStep token (0, 0, 0) in
  res + sec + pending.

(** [k] occurs in [l] as a run of consecutive characters. *)
Definition substring (k l : jsstring) : Prop :=
  exists pre post, l = pre ++ k ++ post.

(** The value of the loop of [chineseNumeralToNumber] on a numeral. *)
Definition loopValue (chinese : jsstring) : Z :=
  let a := numeralLoop chinese (mkAcc 0 0 0) in
  fadd (fadd (result a) (section a)) (number a).

(** A unit symbol of at least 10000, with its value. *)
Definition bigUnit (ch u : Z) : Prop := unitMap ch = Some u /\ 10000 <= u.


(** The title a heading line opens its chapter with. *)
Definition titleOfLine (line : jsstring) : jsstring :=
  match headingMatch line with
  | Some (chineseNum, group2) => headingTitle line chineseNum group2
  | None => []
  end.

(** What a chapter adds to the word count. *)
Definition wordsOf (c : chapter) : Z :=
  Z.of_nat (length (filter (fun ch => negb (isSpace ch)) (data c))).

Fixpoint sumWords (chs : list chapter) : Z :=
  match chs with
  | [] => 0
  | c :: r => wordsOf c + sumWords r
  end.

(** The non-empty fingerprints of a list of chapters. *)
Definition fingerprints (chs : list chapter) : list jsstring :=
  filter (fun f => negb (isEmpty f)) (map (fun c => fingerprint (data c)) chs).

Definition parseStep (acc d : Z) : Z := 10 * acc + (d - 48).

Definition accNonneg (a : acc) : Prop :=
  0 <= result a /\ 0 <= section a /\ 0 <= number a.

Definition accTriple (a : acc) : Z * Z * Z := (result a, section a, number a).

(** The loop variables after [k] characters. *)
Definition accBound (k : Z) (a : acc) : Prop :=
  0 <= number a <= 9
  /\ 0 <= section a <= 9000 * k
  /\ 0 <= result a <= k * (9000 * k + 9) * 100000000.

(** The chapter's title carries the number [n]. *)
Definition hasNum (n : Z) (c : chapter) : bool :=
  match chapterNumber (title c) with
  | Some m => m =? n
  | None => false
  end.

Definition numbered (c : chapter) : Prop := chapterNumber (title c) <> None.

(** [chapterMap.get(n)], the empty list when the key is absent. *)
Fixpoint groupOf (n : Z) (m : chapterMapT) : list chapter :=
  match m with
  | [] => []
  | (k, l) :: m' => if k =? n then l else groupOf n m'
  end.


(** What [keptLoop] appends to [kept] without finding a duplicate. *)
Fixpoint clean (kept extra : list chapter) : Prop :=
  match extra with
  | [] => True
  | c :: e => isDuplicate kept c = false /\ clean (kept ++ [c]) e
  end.

(** The condition under which a chapter is dropped, given the chapters
    kept so far. *)
Definition duplicateOf (kept : list chapter) (c : chapter) : Prop :=
  fingerprint (data c) <> []
  /\ exists k, In k kept /\ fingerprint (data k) = fingerprint (data c).

(** The number a numbered chapter is sorted by. *)
Definition keyOf (c : chapter) : Z :=
  match chapterNumber (title c) with
  | Some n => n
  | None => 0
  end.

(** [uniqueChapters] before the sort. *)
Definition uniqueOf (m : chapterMapT) : list chapter :=
  flat_map (fun e => dedupGroup (snd e)) m.

(** The title the segmenter gives a heading of number [n] and suffix
    [sfx]. *)
Definition canonical (n : Z) (sfx : jsstring) : jsstring :=
  c_di :: numberToString n
    ++ c_zhang :: (if isEmpty sfx then [] else SP :: sfx).

(** A suffix as the segmenter extracts it: trimmed, on one line. *)
Definition goodSuffix (sfx : jsstring) : Prop :=
  trim sfx = sfx /\ forallb notLineTerminator sfx = true.

(** [Number.isInteger] on the numbers of the encoding. *)
Definition isInteger (n : Z) : bool := n <? Infinity.

(** The number prints as the digits of an integer that rounds to it. *)
Definition plain (n : Z) : Prop :=
  exists v, 0 <= v /\ roundDouble v = n /\ numberToString n = digitsOf v.

(** The title of a heading: the number may print in exponent form or as
    Infinity. *)
Definition titleForm (t : jsstring) : Prop :=
  exists n sfx, isNumber n /\ goodSuffix sfx /\ t = canonical n sfx.

(** The title of a heading whose number prints as digits. *)
Definition canonicalTitle (t : jsstring) : Prop :=
  exists n sfx, isNumber n /\ plain n /\ goodSuffix sfx /\ t = canonical n sfx.

(** A chapter as the segmenter builds it: the title of a heading and a
    trimmed, non-empty body. *)
Definition segChapter (c : chapter) : Prop :=
  titleForm (title c) /\ trim (data c) = data c /\ data c <> [].

(** A chapter as splitIntoChapters returns it: a canonical title and a
    trimmed, non-empty body. *)
Definition wfChapter (c : chapter) : Prop :=
  canonicalTitle (title c) /\ trim (data c) = data c /\ data c <> [].

(** The lines of the re-serialised text. *)
Definition linesOf (chs : list chapter) : list jsstring :=
  flat_map (fun c => title c :: split (data c)) chs.

Definition isHeading (line : jsstring) : bool :=
  match headingMatch line with
  | Some _ => true
  | None => false
  end.

(** The state of the segmenter between two lines: the chapters saved so
    far are well formed, and the title of the chapter in progress, if
    any, is the title of a heading. *)
Definition segInv (st : segState) : Prop :=
  Forall segChapter (chapters st)
  /\ match currentChapter st with
     | Some t => titleForm t
     | None => True
     end.

Definition inChapter (st : segState) : Prop :=
  exists t, currentChapter st = Some t /\ t <> [].

(** * Properties *)

(** ** Lists and strings *)

Section ListFacts.
Context {A : Type}.
Variable p : A -> bool.

Lemma takeWhile_dropWhile (l : list A) :
  takeWhile p l ++ dropWhile p l = l.
Proof.
  induction l as [|x l IH]; simpl; [reflexivity|].
  destruct (p x); simpl; [now rewrite IH | reflexivity].
Qed.

Lemma takeWhile_all (l : list A) :
  forallb p l = true -> takeWhile p l = l.
Proof.
  induction l as [|x l IH]; simpl; [reflexivity|].
  intros H. apply andb_prop in H as [Hx Hl]. now rewrite Hx, IH.
Qed.

Lemma takeWhile_app_stop (l : list A) (x : A) (r : list A) :
  forallb p l = true -> p x = false ->
  takeWhile p (l ++ x :: r) = l /\ dropWhile p (l ++ x :: r) = x :: r.
Proof.
  induction l as [|y l IH]; simpl; intros Hl Hx.
  - now rewrite Hx.
  - apply andb_prop in Hl as [Hy Hl]. rewrite Hy.
    destruct (IH Hl Hx) as [-> ->]. now split.
Qed.

Lemma takeWhile_forallb (l : list A) : forallb p (takeWhile p l) = true.
Proof.
  induction l as [|x l IH]; simpl; [reflexivity|].
  destruct (p x) eqn:E; simpl; [now rewrite E | reflexivity].
Qed.

Lemma dropWhile_head (l : list A) (x : A) (r : list A) :
  dropWhile p l = x :: r -> p x = false.
Proof.
  induction l as [|y l IH]; simpl; [discriminate|].
  destruct (p y) eqn:E; [exact IH|]. intros H. now inversion H; subst.
Qed.

Lemma dropWhile_Forall (P : A -> Prop) (l : list A) :
  Forall P l -> Forall P (dropWhile p l).
Proof.
  induction 1 as [|x l Hx Hl IH]; simpl; [constructor|].
  destruct (p x); [exact IH | now constructor].
Qed.

Lemma takeWhile_Forall (P : A -> Prop) (l : list A) :
  Forall P l -> Forall P (takeWhile p l).
Proof.
  induction 1 as [|x l Hx Hl IH]; simpl; [constructor|].
  destruct (p x); now constructor.
Qed.

Lemma filter_snoc (l : list A) (x : A) :
  filter p (l ++ [x]) = filter p l ++ (if p x then [x] else []).
Proof. rewrite filter_app. reflexivity. Qed.
End ListFacts.

Lemma jsstring_eqb_eq (a b : jsstring) : jsstring_eqb a b = true <-> a = b.
Proof.
  unfold jsstring_eqb. destruct (list_eq_dec Z.eq_dec a b); split;
    congruence.
Qed.

Lemma isEmpty_true (s : jsstring) : isEmpty s = true <-> s = [].
Proof. destruct s; simpl; split; congruence. Qed.

Lemma isEmpty_false (s : jsstring) : isEmpty s = false <-> s <> [].
Proof. destruct s; simpl; split; congruence. Qed.

(** *** trim *)

Lemma trimEnd_cons_nonspace (c : Z) (r : jsstring) :
  isSpace c = false -> trimEnd (c :: r) = c :: trimEnd r.
Proof. intros H. simpl. rewrite H. now destruct (trimEnd r). Qed.

Lemma trimEnd_cons_nonempty (c : Z) (r : jsstring) :
  trimEnd r <> [] -> trimEnd (c :: r) = c :: trimEnd r.
Proof. intros H. simpl. destruct (trimEnd r); [contradiction | reflexivity]. Qed.

Lemma trimEnd_app_nonempty (a b : jsstring) :
  trimEnd b <> [] -> trimEnd (a ++ b) = a ++ trimEnd b.
Proof.
  intros H. induction a as [|c a IH]; [reflexivity|].
  rewrite <- app_comm_cons, trimEnd_cons_nonempty; rewrite IH.
  - reflexivity.
  - destruct a; simpl; [assumption | discriminate].
Qed.

Lemma trimEnd_idem (s : jsstring) : trimEnd (trimEnd s) = trimEnd s.
Proof.
  induction s as [|c r IH]; [reflexivity|].
  simpl. destruct (trimEnd r) as [|d r'] eqn:E.
  - destruct (isSpace c) eqn:Hc; simpl; [reflexivity | now rewrite Hc].
  - rewrite trimEnd_cons_nonempty; rewrite IH; [reflexivity | discriminate].
Qed.

Lemma trimEnd_Forall (P : Z -> Prop) (s : jsstring) :
  Forall P s -> Forall P (trimEnd s).
Proof.
  induction 1 as [|c r Hc Hr IH]; simpl; [constructor|].
  destruct (trimEnd r); [destruct (isSpace c)|]; auto.
Qed.

Lemma trim_Forall (P : Z -> Prop) (s : jsstring) :
  Forall P s -> Forall P (trim s).
Proof. intros H. now apply trimEnd_Forall, dropWhile_Forall. Qed.

(** A trimmed string is empty or starts with a character that is not
    white space. *)
Lemma trim_head (s : jsstring) (c : Z) (r : jsstring) :
  trim s = c :: r -> isSpace c = false.
Proof.
  unfold trim, trimStart. destruct (dropWhile isSpace s) as [|d t] eqn:E.
  - discriminate.
  - pose proof (dropWhile_head _ _ _ _ E) as Hd.
    rewrite trimEnd_cons_nonspace by assumption. congruence.
Qed.

Lemma trim_idem (s : jsstring) : trim (trim s) = trim s.
Proof.
  destruct (trim s) as [|c r] eqn:E; [reflexivity|].
  pose proof (trim_head _ _ _ E) as Hc.
  unfold trim, trimStart in *. simpl dropWhile. rewrite Hc.
  rewrite <- E. apply trimEnd_idem.
Qed.

(** A string that starts with a character that is not white space and
    ends with a trimmed, non-empty string is its own trim. *)
Lemma trim_fixed (c : Z) (a b : jsstring) :
  isSpace c = false -> trimEnd b = b -> b <> [] ->
  trim (c :: a ++ b) = c :: a ++ b.
Proof.
  intros Hc Hb Hne. unfold trim, trimStart. simpl dropWhile. rewrite Hc.
  change (c :: a ++ b) with ((c :: a) ++ b).
  rewrite trimEnd_app_nonempty; rewrite Hb; auto.
Qed.

(** *** split and join *)

Lemma split_nonempty (s : jsstring) : split s <> [].
Proof.
  induction s as [|c r IH]; simpl; [discriminate|].
  destruct (c =? NL); [discriminate|]. now destruct (split r).
Qed.

Lemma split_app (a b : jsstring) : split (a ++ NL :: b) = split a ++ split b.
Proof.
  induction a as [|c a IH]; simpl; [reflexivity|].
  destruct (c =? NL); [now rewrite IH|].
  rewrite IH. destruct (split a) eqn:E; [now apply split_nonempty in E|].
  reflexivity.
Qed.

Lemma split_no_newline (s : jsstring) :
  Forall (fun c => c <> NL) s -> split s = [s].
Proof.
  induction 1 as [|c r Hc Hr IH]; simpl; [reflexivity|].
  destruct (Z.eqb_spec c NL); [contradiction|]. now rewrite IH.
Qed.

Lemma join_cons (l : jsstring) (rest : list jsstring) :
  rest <> [] -> join (l :: rest) = l ++ NL :: join rest.
Proof. destruct rest; [contradiction | reflexivity]. Qed.

Lemma join_split (s : jsstring) : join (split s) = s.
Proof.
  induction s as [|c r IH]; [reflexivity|].
  simpl. destruct (Z.eqb_spec c NL) as [->|Hc].
  - rewrite join_cons by apply split_nonempty. now rewrite IH.
  - destruct (split r) as [|l ls] eqn:E; [now apply split_nonempty in E|].
    destruct ls as [|l' ls'].
    + simpl in *. now subst.
    + change (join ((c :: l) :: l' :: ls')) with (c :: join (l :: l' :: ls')).
      now rewrite IH.
Qed.

Lemma split_join (ls : list jsstring) :
  ls <> [] -> split (join ls) = flat_map split ls.
Proof.
  induction ls as [|l rest IH]; [contradiction|]. intros _.
  destruct rest as [|l' rest'].
  - simpl. now rewrite app_nil_r.
  - rewrite join_cons by discriminate. rewrite split_app, IH by discriminate.
    reflexivity.
Qed.

(** ** Numbers *)

Ltac pow53 :=
  change (2 ^ 53) with 9007199254740992 in *;
  change (2 ^ 52) with 4503599627370496 in *.

Lemma roundDouble_small (z : Z) : z < 2 ^ 53 -> roundDouble z = z.
Proof.
  intros H. unfold roundDouble. destruct (Z.ltb_spec z (2 ^ 53)); [reflexivity | lia].
Qed.

Lemma Infinity_pos : 2 ^ 53 < Infinity.
Proof. reflexivity. Qed.

Lemma roundDouble_Infinity : roundDouble Infinity = Infinity.
Proof. vm_compute. reflexivity. Qed.

(** Above 2^53 a rounded value is +Infinity or a significand of 53 bits
    times a power of two. *)
Lemma roundDouble_big (z : Z) :
  2 ^ 53 <= z ->
  roundDouble z = Infinity
  \/ exists q e, 1 <= e /\ 2 ^ 52 <= q <= 2 ^ 53
                 /\ roundDouble z = q * 2 ^ e /\ q * 2 ^ e < Infinity.
Proof.
  intros Hz. unfold roundDouble.
  destruct (Z.ltb_spec z (2 ^ 53)) as [Hlt|_]; [lia|].
  assert (Hpos : 0 < z) by (pow53; lia).
  assert (HL : 53 <= Z.log2 z) by (apply Z.log2_le_pow2; assumption).
  set (e := Z.log2 z - 52).
  assert (He : 1 <= e) by (unfold e; lia).
  assert (Hp : 0 < 2 ^ e) by (apply Z.pow_pos_nonneg; lia).
  destruct (Z.log2_spec z Hpos) as [Hlo Hhi].
  replace (Z.log2 z) with (52 + e) in Hlo by (unfold e; lia).
  replace (Z.succ (Z.log2 z)) with (53 + e) in Hhi by (unfold e; lia).
  rewrite Z.pow_add_r in Hlo, Hhi by lia.
  assert (Hq : 2 ^ 52 <= z / 2 ^ e < 2 ^ 53).
  { split.
    - apply Z.div_le_lower_bound; [assumption | lia].
    - apply Z.div_lt_upper_bound; [assumption | lia]. }
  set (q' := if (2 ^ (e - 1) <? z mod 2 ^ e)
                || (z mod 2 ^ e =? 2 ^ (e - 1)) && Z.odd (z / 2 ^ e)
             then z / 2 ^ e + 1 else z / 2 ^ e).
  assert (Hq' : 2 ^ 52 <= q' <= 2 ^ 53)
    by (unfold q'; destruct (_ || _); lia).
  cbv zeta. fold q'.
  destruct (Z.leb_spec Infinity (q' * 2 ^ e)); [now left|].
  right. exists q', e. repeat split; try lia.
Qed.

Lemma roundDouble_parts (q e : Z) :
  1 <= e -> 2 ^ 53 <= q * 2 ^ e -> Z.log2 (q * 2 ^ e) - 52 = e ->
  q * 2 ^ e < Infinity ->
  roundDouble (q * 2 ^ e) = q * 2 ^ e.
Proof.
  intros He Hbig Hl Hfin.
  assert (Hp : 0 < 2 ^ e) by (apply Z.pow_pos_nonneg; lia).
  assert (Hh : 0 < 2 ^ (e - 1)) by (apply Z.pow_pos_nonneg; lia).
  unfold roundDouble.
  destruct (Z.ltb_spec (q * 2 ^ e) (2 ^ 53)) as [Hlt|_]; [lia|].
  cbv zeta. rewrite Hl. rewrite Z.div_mul, Z.mod_mul by lia.
  destruct (Z.ltb_spec (2 ^ (e - 1)) 0); [lia|].
  destruct (Z.eqb_spec 0 (2 ^ (e - 1))); [lia|]. cbn [orb andb].
  destruct (Z.leb_spec Infinity (q * 2 ^ e)); [lia | reflexivity].
Qed.

Lemma roundDouble_exact (q e : Z) :
  1 <= e -> 2 ^ 52 <= q <= 2 ^ 53 -> q * 2 ^ e < Infinity ->
  roundDouble (q * 2 ^ e) = q * 2 ^ e.
Proof.
  intros He Hq Hfin.
  assert (Hp : 0 < 2 ^ e) by (apply Z.pow_pos_nonneg; lia).
  assert (H2 : 2 <= 2 ^ e).
  { change 2 with (2 ^ 1) at 1. apply Z.pow_le_mono_r; lia. }
  assert (Hqe : q = 2 ^ 53 \/ q < 2 ^ 53) by lia.
  destruct Hqe as [->|Hlt].
  - (* the significand carried: 2^53 * 2^e is 2^52 * 2^(e+1) *)
    assert (Heq : 2 ^ 53 * 2 ^ e = 2 ^ 52 * 2 ^ (e + 1)).
    { rewrite (Z.pow_add_r 2 e 1) by lia. pow53. change (2 ^ 1) with 2. lia. }
    rewrite Heq in *. apply roundDouble_parts; [lia | | | assumption].
    + rewrite <- Heq. pow53. nia.
    + rewrite Z.log2_mul_pow2 by (pow53; lia).
      change (Z.log2 (2 ^ 52)) with 52. lia.
  - apply roundDouble_parts; [lia | | | assumption].
    + pow53. nia.
    + rewrite Z.log2_mul_pow2 by (pow53; lia).
      rewrite (Z.log2_unique q 52); [lia | lia |].
      change (Z.succ 52) with 53. lia.
Qed.

(** Rounding a rounded value changes nothing. *)
Lemma roundDouble_idem (z : Z) : roundDouble (roundDouble z) = roundDouble z.
Proof.
  destruct (Z.lt_ge_cases z (2 ^ 53)) as [Hs|Hb].
  - rewrite (roundDouble_small z Hs). now apply roundDouble_small.
  - destruct (roundDouble_big z Hb) as [->|(q & e & He & Hq & -> & Hfin)].
    + apply roundDouble_Infinity.
    + now apply roundDouble_exact.
Qed.

Lemma roundDouble_nonneg (z : Z) : 0 <= z -> 0 <= roundDouble z.
Proof.
  intros Hz. destruct (Z.lt_ge_cases z (2 ^ 53)) as [Hs|Hb].
  - now rewrite roundDouble_small.
  - destruct (roundDouble_big z Hb) as [->|(q & e & He & Hq & -> & Hfin)].
    + discriminate.
    + assert (0 < 2 ^ e) by (apply Z.pow_pos_nonneg; lia). pow53. nia.
Qed.

Lemma roundDouble_pos (z : Z) : 0 < z -> 0 < roundDouble z.
Proof.
  intros Hz. destruct (Z.lt_ge_cases z (2 ^ 53)) as [Hs|Hb].
  - now rewrite roundDouble_small.
  - destruct (roundDouble_big z Hb) as [->|(q & e & He & Hq & -> & Hfin)].
    + reflexivity.
    + assert (0 < 2 ^ e) by (apply Z.pow_pos_nonneg; lia). pow53. nia.
Qed.

Lemma roundDouble_le_Infinity (z : Z) : roundDouble z <= Infinity.
Proof.
  destruct (Z.lt_ge_cases z (2 ^ 53)) as [Hs|Hb].
  - rewrite roundDouble_small by assumption. pose proof Infinity_pos. lia.
  - destruct (roundDouble_big z Hb) as [->|(q & e & He & Hq & -> & Hfin)]; lia.
Qed.

Lemma roundDouble_isNumber (z : Z) : 0 <= z -> isNumber (roundDouble z).
Proof.
  intros Hz. split; [now apply roundDouble_nonneg | apply roundDouble_idem].
Qed.

Lemma fadd_isNumber (a b : Z) : 0 <= a -> 0 <= b -> isNumber (fadd a b).
Proof. intros Ha Hb. apply roundDouble_isNumber. lia. Qed.

Lemma fadd_small (a b : Z) : a + b < 2 ^ 53 -> fadd a b = a + b.
Proof. apply roundDouble_small. Qed.

Lemma fmul_small (a b : Z) : a * b < 2 ^ 53 -> fmul a b = a * b.
Proof. apply roundDouble_small. Qed.

Lemma fadd_0_r (a : Z) : isNumber a -> fadd a 0 = a.
Proof. intros [_ H]. unfold fadd. now rewrite Z.add_0_r. Qed.

(** The comparator has the sign of the difference of the numbers. *)
Lemma fsub_sign (a b : Z) : fsub a b <= 0 <-> a <= b.
Proof.
  unfold fsub. destruct (Z.eqb_spec a b) as [->|Hne]; [lia|].
  pose proof Infinity_pos as HI. pow53.
  destruct (Z.ltb_spec b a) as [Hlt|Hge].
  - destruct (a =? Infinity); [lia|].
    pose proof (roundDouble_pos (a - b)). lia.
  - destruct (b =? Infinity); [lia|].
    pose proof (roundDouble_pos (b - a)). lia.
Qed.

(** ** Decimal text *)

Lemma parseInt_fold (s : jsstring) :
  parseInt s = roundDouble (fold_left parseStep s 0).
Proof. reflexivity. Qed.

Lemma isDigit_range (c : Z) : isDigit c = true <-> 48 <= c <= 57.
Proof. unfold isDigit. rewrite andb_true_iff, !Z.leb_le. tauto. Qed.

Lemma parse_nonneg (s : jsstring) (a : Z) :
  forallb isDigit s = true -> 0 <= a -> 0 <= fold_left parseStep s a.
Proof.
  revert a. induction s as [|d s IH]; simpl; intros a Hs Ha; [assumption|].
  apply andb_prop in Hs as [Hd Hs]. apply isDigit_range in Hd.
  apply IH; [assumption | unfold parseStep; lia].
Qed.

Lemma parseInt_isNumber (s : jsstring) :
  forallb isDigit s = true -> isNumber (parseInt s).
Proof.
  intros H. rewrite parseInt_fold. apply roundDouble_isNumber.
  now apply parse_nonneg.
Qed.

Lemma parse_decimalValue (s : jsstring) (a : Z) :
  fold_left parseStep s a = a * 10 ^ Z.of_nat (length s) + decimalValue s.
Proof.
  revert a. induction s as [|d s IH]; intros a.
  - simpl. lia.
  - cbn [fold_left decimalValue length]. rewrite IH.
    rewrite Nat2Z.inj_succ, Z.pow_succ_r by lia. unfold parseStep. ring.
Qed.

Lemma digitsFuel_length (fuel : nat) (n : Z) (acc : jsstring) :
  (length acc < length (digitsFuel fuel n acc))%nat.
Proof.
  revert n acc. induction fuel as [|f IH]; intros n acc; cbn [digitsFuel].
  - cbn [length]. lia.
  - destruct (n <? 10); [cbn [length]; lia|].
    specialize (IH (n / 10) ((48 + n mod 10) :: acc)). cbn [length] in IH. lia.
Qed.

Lemma digitsFuel_parse (fuel : nat) :
  forall n acc k,
    0 <= n < 2 ^ Z.of_nat (S fuel) ->
    fold_left parseStep (digitsFuel fuel n acc) k
    = fold_left parseStep acc (k * 10 ^ Z.of_nat (length (digitsFuel fuel n acc) - length acc) + n).
Proof.
  induction fuel as [|f IH]; intros n acc k Hn.
  - assert (n < 10) by (change (2 ^ Z.of_nat 1) with 2 in Hn; lia).
    cbn [digitsFuel fold_left length].
    replace (S (length acc) - length acc)%nat with 1%nat by lia.
    rewrite Z.mod_small by lia. f_equal. unfold parseStep.
    change (10 ^ Z.of_nat 1) with 10. lia.
  - cbn [digitsFuel]. destruct (Z.ltb_spec n 10) as [Hlt|Hge].
    + cbn [fold_left length].
      replace (S (length acc) - length acc)%nat with 1%nat by lia.
      rewrite Z.mod_small by lia. f_equal. unfold parseStep.
      change (10 ^ Z.of_nat 1) with 10. lia.
    + assert (Hdiv : 0 <= n / 10 < 2 ^ Z.of_nat (S f)).
      { split; [apply Z.div_pos; lia|].
        rewrite (Nat2Z.inj_succ (S f)), Z.pow_succ_r in Hn by lia.
        apply Z.div_lt_upper_bound; lia. }
      rewrite IH by assumption. cbn [fold_left length]. f_equal.
      unfold parseStep.
      pose proof (digitsFuel_length f (n / 10) ((48 + n mod 10) :: acc)) as Hlen.
      cbn [length] in *.
      set (L := length (digitsFuel f (n / 10) ((48 + n mod 10) :: acc))) in *.
      replace (L - length acc)%nat with (S (L - S (length acc)))%nat by lia.
      rewrite Nat2Z.inj_succ, Z.pow_succ_r by lia.
      pose proof (Z.div_mod n 10 ltac:(lia)). lia.
Qed.

Lemma log2_fuel (n : Z) : 0 <= n -> n < 2 ^ Z.of_nat (S (Z.to_nat (Z.log2 n))).
Proof.
  intros Hn. rewrite Nat2Z.inj_succ, Z2Nat.id by apply Z.log2_nonneg.
  destruct (Z.eq_dec n 0) as [->|Hz]; [reflexivity|].
  apply Z.log2_spec. lia.
Qed.

Lemma digitsFuel_digits (fuel : nat) :
  forall n acc, 0 <= n -> forallb isDigit acc = true ->
                forallb isDigit (digitsFuel fuel n acc) = true.
Proof.
  induction fuel as [|f IH]; intros n acc Hn Hacc.
  - cbn [digitsFuel forallb]. rewrite Hacc, andb_true_r.
    apply isDigit_range. pose proof (Z.mod_pos_bound n 10). lia.
  - cbn [digitsFuel].
    assert (Hd : isDigit (48 + n mod 10) = true).
    { apply isDigit_range. pose proof (Z.mod_pos_bound n 10). lia. }
    destruct (n <? 10).
    + cbn [forallb]. now rewrite Hd, Hacc.
    + apply IH; [apply Z.div_pos; lia|]. cbn [forallb]. now rewrite Hd, Hacc.
Qed.

Lemma digitsFuel_nonempty (fuel : nat) (n : Z) (acc : jsstring) :
  digitsFuel fuel n acc <> [].
Proof.
  revert n acc. induction fuel as [|f IH]; intros n acc; cbn [digitsFuel].
  - discriminate.
  - destruct (n <? 10); [discriminate | apply IH].
Qed.

(** Reading the digits of a non-negative integer gives it back. *)
Lemma parse_digitsOf (n : Z) :
  0 <= n -> fold_left parseStep (digitsOf n) 0 = n.
Proof.
  intros Hn. unfold digitsOf.
  rewrite digitsFuel_parse by (split; [assumption | now apply log2_fuel]).
  simpl. lia.
Qed.

Lemma digitsOf_digits (n : Z) : 0 <= n -> forallb isDigit (digitsOf n) = true.
Proof. intros Hn. now apply digitsFuel_digits. Qed.

Lemma digitsOf_nonempty (n : Z) : digitsOf n <> [].
Proof. apply digitsFuel_nonempty. Qed.

(** *** Printing a number *)

Lemma candidate_sound (x k v : Z) :
  0 <= x -> candidate x k = Some v -> roundDouble v = x /\ 0 <= v.
Proof.
  intros Hx. unfold candidate.
  set (p := 10 ^ (Z.of_nat (length (digitsOf x)) - k)).
  assert (Hp : 0 <= p) by (apply Z.pow_nonneg; lia).
  assert (Hlo : 0 <= x / p * p).
  { destruct (Z.eq_dec p 0) as [->|Hne]; [lia|].
    assert (0 <= x / p) by (apply Z.div_pos; lia). nia. }
  destruct (Z.eqb_spec (roundDouble (x / p * p)) x) as [Elo|Nlo];
    destruct (Z.eqb_spec (roundDouble (x / p * p + p)) x) as [Ehi|Nhi];
    cbn [andb]; intros H; inversion H; subst; clear H.
  - destruct (x - x / p * p <? x / p * p + p - x); [split; [assumption | lia]|].
    destruct (x / p * p + p - x <? x - x / p * p); [split; [assumption | lia]|].
    destruct (Z.even (x / p)); split; assumption || lia.
  - split; [assumption | lia].
  - split; [assumption | lia].
Qed.

Lemma shortestFrom_sound (fuel : nat) :
  forall x k, isNumber x ->
              roundDouble (shortestFrom x k fuel) = x /\ 0 <= shortestFrom x k fuel.
Proof.
  induction fuel as [|f IH]; intros x k Hx; cbn [shortestFrom].
  - destruct Hx. now split.
  - destruct (candidate x k) as [v|] eqn:E; [|now apply IH].
    apply (candidate_sound x k v); [apply Hx | assumption].
Qed.

(** The integer printed for a number rounds to the number. *)
Lemma shortest_sound (x : Z) :
  isNumber x -> roundDouble (shortest x) = x /\ 0 <= shortest x.
Proof.
  intros Hx. unfold shortest. destruct (x <? 2 ^ 53).
  - destruct Hx. now split.
  - now apply shortestFrom_sound.
Qed.

Lemma shortest_small (x : Z) : x < 2 ^ 53 -> shortest x = x.
Proof.
  intros H. unfold shortest. destruct (Z.ltb_spec x (2 ^ 53)); [reflexivity | lia].
Qed.

Lemma stripTrailingZeros_digits (s : jsstring) :
  forallb isDigit s = true -> forallb isDigit (stripTrailingZeros s) = true.
Proof.
  intros H. unfold stripTrailingZeros. apply forallb_forall. intros c Hc.
  apply in_rev in Hc.
  assert (Hin : In c (rev s)).
  { rewrite <- (takeWhile_dropWhile (fun c => c =? 48) (rev s)).
    apply in_or_app. now right. }
  apply in_rev in Hin. rewrite forallb_forall in H. now apply H.
Qed.

(** A number prints as the digits of an integer that rounds to it, or
    as text that does not read as digits followed by 章. *)
Lemma numberToString_form (n : Z) :
  isNumber n ->
  (exists v, 0 <= v /\ roundDouble v = n /\ numberToString n = digitsOf v)
  \/ (exists pre x r, numberToString n = pre ++ x :: r
                      /\ forallb isDigit pre = true
                      /\ isDigit x = false /\ x <> c_zhang).
Proof.
  intros Hn. unfold numberToString.
  destruct (Infinity <=? n).
  - right. exists [], 73, (js "nfinity"). repeat split; discriminate.
  - destruct (shortest_sound n Hn) as [Hr Hv].
    destruct (shortest n <? 10 ^ 21).
    + left. now exists (shortest n).
    + right. unfold exponentForm.
      pose proof (digitsOf_digits (shortest n) Hv) as Hd.
      destruct (digitsOf (shortest n)) as [|d tl] eqn:E;
        [now apply digitsOf_nonempty in E|].
      cbn [forallb] in Hd. apply andb_prop in Hd as [Hd Htl].
      destruct (stripTrailingZeros tl) as [|f fr] eqn:Ef.
      * exists [d], 101, (43 :: digitsOf (Z.of_nat (length tl))).
        cbn [forallb]. rewrite Hd. repeat split; discriminate.
      * exists [d], 46, ((f :: fr) ++ 101 :: 43 :: digitsOf (Z.of_nat (length tl))).
        cbn [forallb]. rewrite Hd. repeat split; discriminate.
Qed.

Lemma numberToString_small (n : Z) :
  0 <= n < 2 ^ 53 -> numberToString n = digitsOf n.
Proof.
  intros [Hn Hs]. unfold numberToString. pose proof Infinity_pos.
  destruct (Z.leb_spec Infinity n); [lia|].
  rewrite shortest_small by assumption.
  destruct (Z.ltb_spec n (10 ^ 21)) as [_|Hge]; [reflexivity|].
  pow53. change (10 ^ 21) with 1000000000000000000000 in Hge. lia.
Qed.

Lemma numberToString_nonempty (n : Z) : isNumber n -> numberToString n <> [].
Proof.
  intros Hn.
  destruct (numberToString_form n Hn) as [(v & _ & _ & ->)|(pre & x & r & -> & _)].
  - apply digitsOf_nonempty.
  - now destruct pre.
Qed.

(** ** The numeral normaliser *)

Lemma digitMap_range (ch d : Z) : digitMap ch = Some d -> 0 <= d <= 9.
Proof.
  unfold digitMap.
  repeat match goal with
         | |- context [if ?b then _ else _] => destruct b
         end; intros H; inversion H; lia.
Qed.

Lemma unitMap_range (ch u : Z) : unitMap ch = Some u -> 10 <= u <= 100000000.
Proof.
  unfold unitMap.
  repeat match goal with
         | |- context [if ?b then _ else _] => destruct b
         end; intros H; inversion H; lia.
Qed.

Lemma orOne_pos (n : Z) : 0 <= n -> 1 <= orOne n.
Proof. intros H. unfold orOne. destruct (Z.eqb_spec n 0); lia. Qed.

Lemma numeralStep_nonneg (a : acc) (ch : Z) :
  accNonneg a -> accNonneg (numeralStep a ch).
Proof.
  unfold accNonneg, numeralStep. intros (Hr & Hs & Hn).
  destruct (digitMap ch) as [d|] eqn:Ed.
  - apply digitMap_range in Ed. simpl. lia.
  - destruct (unitMap ch) as [u|] eqn:Eu; [|simpl; lia].
    apply unitMap_range in Eu. pose proof (orOne_pos (number a) Hn).
    destruct (10000 <=? u); cbn [result section number]; unfold fadd, fmul.
    + repeat split; try lia. apply roundDouble_nonneg.
      pose proof (roundDouble_nonneg ((roundDouble (section a + number a)) * u)).
      pose proof (roundDouble_nonneg (section a + number a)). nia.
    + repeat split; try lia. apply roundDouble_nonneg.
      pose proof (roundDouble_nonneg (orOne (number a) * u)). nia.
Qed.

Lemma numeralLoop_nonneg (s : jsstring) (a : acc) :
  accNonneg a -> accNonneg (numeralLoop s a).
Proof.
  revert a. induction s as [|ch s IH]; simpl; intros a Ha; [assumption|].
  now apply IH, numeralStep_nonneg.
Qed.

(** The normaliser gives a number for every non-empty string. *)
Lemma chineseNumeralToNumber_number (s : jsstring) :
  s <> [] -> exists n, chineseNumeralToNumber s = Some n /\ isNumber n.
Proof.
  intros Hs. unfold chineseNumeralToNumber.
  apply isEmpty_false in Hs. rewrite Hs.
  destruct (forallb isDigit s) eqn:Ed.
  - eexists; split; [reflexivity|]. now apply parseInt_isNumber.
  - eexists; split; [reflexivity|].
    destruct (numeralLoop_nonneg s (mkAcc 0 0 0)) as (Hr & Hx & Hn);
      [unfold accNonneg; simpl; lia|].
    apply fadd_isNumber; [|assumption].
    apply roundDouble_nonneg. lia.
Qed.

Lemma chineseNumeralToNumber_nonempty (s : jsstring) :
  s <> [] -> exists n, chineseNumeralToNumber s = Some n /\ 0 <= n.
Proof.
  intros Hs. destruct (chineseNumeralToNumber_number s Hs) as (n & Hn & Hpos & _).
  now exists n.
Qed.

(** *** The range of the normaliser

    On a numeral of at most 15 characters every value of the loop stays
    below 2^53: no sum and no product is rounded, and the loop computes
    what the algorithm of the specification computes on integers. *)

Lemma classify_maps (ch : Z) :
  classify ch =
  match digitMap ch with
  | Some d => DigitSym d
  | None => match unitMap ch with
            | Some u => UnitSym u
            | None => OtherSym
            end
  end.
Proof.
  unfold classify, lookupSym, digitSymbols, unitSymbols, digitMap, unitMap.
  cbn [find fst snd option_map].
  repeat match goal with
         | |- context [?c =? ch] => rewrite (Z.eqb_sym c ch)
         end.
  repeat match goal with
         | |- context [ch =? ?c] =>
             destruct (ch =? c); cbn [option_map snd]; try reflexivity
         end.
Qed.

Lemma unitMap_small (ch u : Z) : unitMap ch = Some u -> u < 10000 -> u <= 1000.
Proof.
  unfold unitMap.
  repeat match goal with
         | |- context [if ?b then _ else _] => destruct b
         end; intros H; inversion H; lia.
Qed.

Lemma numeralStep_exact (k : Z) (a : acc) (ch : Z) :
  0 <= k < 15 -> accBound k a ->
  accTriple (numeralStep a ch) = specStep (accTriple a) ch
  /\ accBound (k + 1) (numeralStep a ch).
Proof.
  unfold accBound, numeralStep, specStep, accTriple. intros Hk (Hn & Hs & Hr).
  rewrite classify_maps.
  destruct (digitMap ch) as [d|] eqn:Ed.
  - apply digitMap_range in Ed. cbn [result section number].
    split; [reflexivity | nia].
  - destruct (unitMap ch) as [u|] eqn:Eu;
      [|cbn [result section number]; split; [reflexivity | nia]].
    pose proof (unitMap_range _ _ Eu) as Hu.
    destruct (Z.leb_spec 10000 u) as [Hbig|Hsmall];
      destruct (Z.ltb_spec u 10000) as [Hlt|Hge]; try lia;
      cbn [result section number].
    + assert (H1 : section a + number a <= 9000 * k + 9) by lia.
      assert (H2 : (section a + number a) * u <= (9000 * k + 9) * 100000000) by nia.
      rewrite (fadd_small (section a) (number a)) by (pow53; nia).
      rewrite fmul_small by (pow53; nia).
      rewrite fadd_small by (pow53; nia).
      split; [reflexivity | nia].
    + pose proof (unitMap_small _ _ Eu Hlt) as Hu'.
      assert (H1 : 0 <= orOne (number a) * u <= 9000)
        by (unfold orOne; destruct (number a =? 0); nia).
      rewrite fmul_small by (pow53; nia).
      rewrite fadd_small by (pow53; nia).
      split; [unfold orOne; reflexivity | nia].
Qed.

Lemma numeralLoop_exact (s : jsstring) :
  forall k a, 0 <= k -> k + Z.of_nat (length s) <= 15 -> accBound k a ->
              accTriple (numeralLoop s a) = fold_left specStep s (accTriple a)
              /\ accBound (k + Z.of_nat (length s)) (numeralLoop s a).
Proof.
  induction s as [|ch s IH]; intros k a Hk Hlen Ha.
  - cbn [numeralLoop length fold_left]. now rewrite Z.add_0_r.
  - cbn [numeralLoop length fold_left] in *. rewrite Nat2Z.inj_succ in *.
    destruct (numeralStep_exact k a ch ltac:(lia) Ha) as [Hstep Hb].
    replace (k + Z.succ (Z.of_nat (length s)))
      with (k + 1 + Z.of_nat (length s)) by lia.
    rewrite <- Hstep. apply IH; [lia | lia | assumption].
Qed.

Lemma parse_bound (s : jsstring) :
  forall a, forallb isDigit s = true -> 0 <= a ->
            fold_left parseStep s a < (a + 1) * 10 ^ Z.of_nat (length s).
Proof.
  induction s as [|d s IH]; intros a Hs Ha.
  - cbn [fold_left length]. change (10 ^ Z.of_nat 0) with 1. lia.
  - cbn [forallb] in Hs. apply andb_prop in Hs as [Hd Hs].
    apply isDigit_range in Hd. cbn [fold_left length].
    rewrite Nat2Z.inj_succ, Z.pow_succ_r by lia.
    specialize (IH (parseStep a d) Hs ltac:(unfold parseStep; lia)).
    unfold parseStep in *.
    assert (0 < 10 ^ Z.of_nat (length s)) by (apply Z.pow_pos_nonneg; lia).
    nia.
Qed.

Lemma parseInt_exact (s : jsstring) :
  (length s <= 15)%nat -> forallb isDigit s = true ->
  parseInt s = decimalValue s /\ 0 <= decimalValue s < 2 ^ 53.
Proof.
  intros Hlen Hd. rewrite parseInt_fold.
  assert (Hp : 10 ^ Z.of_nat (length s) <= 10 ^ 15)
    by (apply Z.pow_le_mono_r; lia).
  pose proof (parse_bound s 0 Hd ltac:(lia)) as Hb.
  pose proof (parse_nonneg s 0 Hd ltac:(lia)) as Hn.
  rewrite parse_decimalValue in *.
  change (10 ^ 15) with 1000000000000000 in Hp.
  rewrite roundDouble_small by (pow53; lia). pow53. lia.
Qed.

(** The loop on a numeral of at most 15 characters. *)
Lemma loopValue_exact (s : jsstring) :
  (length s <= 15)%nat ->
  loopValue s = specValue s /\ 0 <= specValue s < 2 ^ 53.
Proof.
  intros Hlen. unfold loopValue, specValue.
  destruct (numeralLoop_exact s 0 (mkAcc 0 0 0)) as [Ht (Hn & Hs & Hr)];
    [lia | lia | unfold accBound; cbn [result section number]; lia |].
  change (accTriple (mkAcc 0 0 0)) with (0, 0, 0) in Ht. rewrite <- Ht.
  unfold accTriple. cbv zeta.
  assert (Hk : 0 <= Z.of_nat (length s) <= 15) by lia.
  rewrite Z.add_0_l in *. set (k := Z.of_nat (length s)) in *.
  set (a := numeralLoop s (mkAcc 0 0 0)) in *.
  rewrite (fadd_small (result a)) by (pow53; nia).
  rewrite fadd_small by (pow53; nia).
  pow53. split; [reflexivity | nia].
Qed.

Lemma normalizeSpec_refines (token : jsstring) :
  (length token <= 15)%nat ->
  chineseNumeralToNumber token = normalizeSpec token.
Proof.
  intros Hlen. destruct token as [|c r]; [reflexivity|].
  unfold chineseNumeralToNumber, normalizeSpec. cbn [isEmpty].
  destruct (forallb isDigit (c :: r)) eqn:Ed.
  - now destruct (parseInt_exact (c :: r) Hlen Ed) as [-> _].
  - destruct (loopValue_exact (c :: r) Hlen) as [Hv _].
    unfold loopValue, specValue in Hv. rewrite Hv.
    now destruct (fold_left specStep (c :: r) (0, 0, 0)) as [[res sec] pending].
Qed.

Lemma chineseNumeralToNumber_range (s : jsstring) (n : Z) :
  (length s <= 15)%nat -> chineseNumeralToNumber s = Some n ->
  0 <= n < 2 ^ 53.
Proof.
  intros Hlen. unfold chineseNumeralToNumber.
  destruct (isEmpty s); [discriminate|].
  destruct (forallb isDigit s) eqn:Ed; intros H; inversion H; subst; clear H.
  - destruct (parseInt_exact s Hlen Ed) as [-> Hr]. exact Hr.
  - destruct (loopValue_exact s Hlen) as [Hv Hr].
    unfold loopValue in Hv. rewrite Hv. exact Hr.
Qed.

(** C3.  The normaliser gives the reference values of the specification
    (十二 is 12, 一百零五 is 105, 两千三百 is 2300, the text 3 is 3, the
    empty string is null), and on every numeral of at most 15
    characters, where its sums and products are exact, it computes what
    the single-pass algorithm of the specification computes: a digit
    symbol becomes the pending digit; a unit of at least 10000 adds
    (section + pending) * unit to the result and clears the section; a
    smaller unit adds (pending or 1) * unit to the section; any other
    character clears the pending digit; the value is
    result + section + pending. *)
Theorem C3_normalizer_values_and_algorithm :
  chineseNumeralToNumber (js "十二") = Some 12
  /\ chineseNumeralToNumber (js "一百零五") = Some 105
  /\ chineseNumeralToNumber (js "两千三百") = Some 2300
  /\ chineseNumeralToNumber (js "3") = Some 3
  /\ chineseNumeralToNumber (js "") = None
  /\ forall token, (length token <= 15)%nat ->
                   chineseNumeralToNumber token = normalizeSpec token.
Proof.
  repeat split; try reflexivity. apply normalizeSpec_refines.
Qed.

Lemma C3_normalizer_values_and_algorithm_witness :
  chineseNumeralToNumber (js "三千二百万零五十六")
  = normalizeSpec (js "三千二百万零五十六").
Proof.
  apply C3_normalizer_values_and_algorithm. vm_compute. lia.
Defined.

(** ** Duplicate removal inside one group *)

Lemma isDuplicate_spec (kept : list chapter) (c : chapter) :
  isDuplicate kept c = true <-> duplicateOf kept c.
Proof.
  unfold isDuplicate, duplicateOf. rewrite existsb_exists. split.
  - intros (k & Hk & H). apply andb_prop in H as [Heq Hne].
    apply jsstring_eqb_eq in Heq. apply negb_true_iff, isEmpty_false in Hne.
    split; [assumption|]. exists k. split; [assumption | congruence].
  - intros (Hne & k & Hk & Heq). exists k. split; [assumption|].
    apply andb_true_intro. split.
    + apply jsstring_eqb_eq. congruence.
    + now apply negb_true_iff, isEmpty_false.
Qed.

Lemma keptLoop_app (kept r1 r2 : list chapter) :
  keptLoop kept (r1 ++ r2) = keptLoop (keptLoop kept r1) r2.
Proof.
  revert kept. induction r1 as [|c r1 IH]; intros kept; [reflexivity|].
  simpl. destruct (isDuplicate kept c); apply IH.
Qed.

Lemma keptLoop_extra (rest : list chapter) :
  forall kept, exists extra,
    keptLoop kept rest = kept ++ extra
    /\ clean kept extra
    /\ incl extra rest
    /\ (length extra <= length rest)%nat.
Proof.
  induction rest as [|c rest IH]; intros kept.
  - exists []. simpl. rewrite app_nil_r.
    split; [reflexivity|]. split; [exact I|]. split; [apply incl_refl | lia].
  - simpl. destruct (isDuplicate kept c) eqn:E.
    + destruct (IH kept) as (extra & H1 & H2 & H3 & H4).
      exists extra. split; [assumption|]. split; [assumption|].
      split; [now apply incl_tl | lia].
    + destruct (IH (kept ++ [c])) as (extra & H1 & H2 & H3 & H4).
      exists (c :: extra). rewrite H1, <- app_assoc.
      split; [reflexivity|]. split; [now split|]. split.
      * apply incl_cons; [now left | now apply incl_tl].
      * simpl. lia.
Qed.

Lemma keptLoop_clean (extra : list chapter) :
  forall kept, clean kept extra -> keptLoop kept extra = kept ++ extra.
Proof.
  induction extra as [|c e IH]; intros kept H; simpl.
  - now rewrite app_nil_r.
  - destruct H as [Hd Hc]. rewrite Hd, IH by assumption.
    now rewrite <- app_assoc.
Qed.

Lemma dedupGroup_cons (c0 : chapter) (rest : list chapter) :
  dedupGroup (c0 :: rest) = keptLoop [c0] rest.
Proof. destruct rest; reflexivity. Qed.

Lemma dedupGroup_extra (c0 : chapter) (rest : list chapter) :
  exists extra,
    dedupGroup (c0 :: rest) = c0 :: extra
    /\ clean [c0] extra /\ incl extra rest /\ (length extra <= length rest)%nat.
Proof.
  rewrite dedupGroup_cons. destruct (keptLoop_extra rest [c0]) as (e & H).
  exists e. exact H.
Qed.

Lemma dedupGroup_idem (l : list chapter) :
  dedupGroup (dedupGroup l) = dedupGroup l.
Proof.
  destruct l as [|c0 rest]; [reflexivity|].
  destruct (dedupGroup_extra c0 rest) as (e & -> & Hc & _).
  rewrite dedupGroup_cons. now apply keptLoop_clean.
Qed.

Lemma dedupGroup_incl (l : list chapter) : incl (dedupGroup l) l.
Proof.
  destruct l as [|c0 rest]; [apply incl_refl|].
  destruct (dedupGroup_extra c0 rest) as (e & -> & _ & Hi & _).
  apply incl_cons; [now left | now apply incl_tl].
Qed.

Lemma dedupGroup_length (l : list chapter) :
  (length (dedupGroup l) <= length l)%nat.
Proof.
  destruct l as [|c0 rest]; [reflexivity|].
  destruct (dedupGroup_extra c0 rest) as (e & -> & _ & _ & Hl). simpl. lia.
Qed.


Lemma dedupGroup_snoc (g : list chapter) (c : chapter) :
  g <> [] ->
  dedupGroup (g ++ [c])
  = if isDuplicate (dedupGroup g) c then dedupGroup g else dedupGroup g ++ [c].
Proof.
  destruct g as [|c0 rest]; [contradiction|]. intros _.
  rewrite <- app_comm_cons, !dedupGroup_cons, keptLoop_app. reflexivity.
Qed.

Lemma dedupGroup_prefix (g post : list chapter) :
  exists tl, dedupGroup (g ++ post) = dedupGroup g ++ tl.
Proof.
  destruct g as [|c0 rest]; [now exists (dedupGroup post)|].
  rewrite <- app_comm_cons, !dedupGroup_cons, keptLoop_app.
  destruct (keptLoop_extra post (keptLoop [c0] rest)) as (e & -> & _).
  now exists e.
Qed.

(** ** Grouping by number *)

Lemma hasNum_true (n : Z) (c : chapter) :
  hasNum n c = true <-> chapterNumber (title c) = Some n.
Proof.
  unfold hasNum. destruct (chapterNumber (title c)) as [m|].
  - rewrite Z.eqb_eq. split; congruence.
  - split; discriminate.
Qed.

Lemma mapPush_keys (num : Z) (ch : chapter) (m : chapterMapT) :
  map fst (mapPush num ch m)
  = if existsb (Z.eqb num) (map fst m) then map fst m else map fst m ++ [num].
Proof.
  induction m as [|[k l] m IH]; [reflexivity|].
  simpl. rewrite (Z.eqb_sym num k). destruct (k =? num); simpl; [reflexivity|].
  rewrite IH. now destruct (existsb (Z.eqb num) (map fst m)).
Qed.

Lemma mapPush_NoDup (num : Z) (ch : chapter) (m : chapterMapT) :
  NoDup (map fst m) -> NoDup (map fst (mapPush num ch m)).
Proof.
  intros H. rewrite mapPush_keys.
  destruct (existsb (Z.eqb num) (map fst m)) eqn:E; [assumption|].
  apply NoDup_app; [assumption | repeat constructor; intros [] |].
  intros k Hk [Heq|[]]. subst k.
  assert (existsb (Z.eqb num) (map fst m) = true); [|congruence].
  apply existsb_exists. exists num. split; [assumption | apply Z.eqb_refl].
Qed.

Lemma mapPush_groupOf (num : Z) (ch : chapter) (m : chapterMapT) (n : Z) :
  groupOf n (mapPush num ch m)
  = if num =? n then groupOf n m ++ [ch] else groupOf n m.
Proof.
  induction m as [|[k l] m IH]; simpl.
  - now destruct (num =? n).
  - destruct (Z.eqb_spec k num) as [->|Hk]; simpl.
    + now destruct (num =? n).
    + destruct (Z.eqb_spec k n) as [->|Hn]; [|exact IH].
      destruct (Z.eqb_spec num n); [congruence | reflexivity].
Qed.

Lemma mapPush_Forall (num : Z) (ch : chapter) (m : chapterMapT) :
  hasNum num ch = true ->
  Forall (fun e => forallb (hasNum (fst e)) (snd e) = true) m ->
  Forall (fun e => forallb (hasNum (fst e)) (snd e) = true) (mapPush num ch m).
Proof.
  intros Hc. induction 1 as [|[k l] m He Hm IH]; simpl.
  - repeat constructor. simpl. now rewrite Hc.
  - destruct (Z.eqb_spec k num) as [->|Hk]; constructor; auto.
    simpl in *. rewrite forallb_app, He. simpl. now rewrite Hc.
Qed.

Lemma mapPush_size (num : Z) (ch : chapter) (m : chapterMapT) :
  length (flat_map snd (mapPush num ch m)) = S (length (flat_map snd m)).
Proof.
  induction m as [|[k l] m IH]; [reflexivity|].
  simpl. destruct (k =? num); simpl; rewrite !length_app.
  - simpl. lia.
  - rewrite IH. lia.
Qed.

Lemma groupByNumber_snoc (chs : list chapter) (c : chapter) :
  groupByNumber (chs ++ [c]) = groupStep (groupByNumber chs) c.
Proof. unfold groupByNumber. now rewrite fold_left_app. Qed.

(** The map built by the grouping loop: distinct keys, every chapter
    under its own number, every group the input chapters of that number
    in input order. *)
Lemma hasNum_of (c : chapter) (num n : Z) :
  chapterNumber (title c) = Some num -> hasNum n c = (num =? n).
Proof. unfold hasNum. now intros ->. Qed.

Lemma hasNum_none (c : chapter) (n : Z) :
  chapterNumber (title c) = None -> hasNum n c = false.
Proof. unfold hasNum. now intros ->. Qed.

Lemma groupByNumber_spec (chs : list chapter) :
  NoDup (map fst (groupByNumber chs))
  /\ Forall (fun e => forallb (hasNum (fst e)) (snd e) = true) (groupByNumber chs)
  /\ (forall n, groupOf n (groupByNumber chs) = filter (hasNum n) chs)
  /\ (length (flat_map snd (groupByNumber chs)) <= length chs)%nat.
Proof.
  induction chs as [|c chs IH] using rev_ind.
  - split; [constructor|]. split; [constructor|]. split; [reflexivity|].
    simpl. lia.
  - destruct IH as (Hk & Hf & Hg & Hl).
    rewrite groupByNumber_snoc. unfold groupStep.
    destruct (chapterNumber (title c)) as [num|] eqn:E.
    + split; [now apply mapPush_NoDup|].
      split; [apply mapPush_Forall; [now apply hasNum_true | assumption]|].
      split.
      * intros n. rewrite mapPush_groupOf, filter_snoc, Hg.
        rewrite (hasNum_of c num n E).
        destruct (num =? n); [reflexivity | now rewrite app_nil_r].
      * rewrite mapPush_size, length_app. simpl. lia.
    + split; [assumption|]. split; [assumption|]. split.
      * intros n. rewrite filter_snoc, Hg, (hasNum_none c n E).
        now rewrite app_nil_r.
      * rewrite length_app. simpl. lia.
Qed.

(** ** The chapters kept, group by group *)

Lemma filter_all {A} (p : A -> bool) (l : list A) :
  (forall x, In x l -> p x = true) -> filter p l = l.
Proof.
  induction l as [|x l IH]; intros H; [reflexivity|].
  simpl. rewrite (H x (or_introl eq_refl)). f_equal. apply IH.
  intros y Hy. apply H. now right.
Qed.

Lemma filter_none {A} (p : A -> bool) (l : list A) :
  (forall x, In x l -> p x = false) -> filter p l = [].
Proof.
  induction l as [|x l IH]; intros H; [reflexivity|].
  simpl. rewrite (H x (or_introl eq_refl)). apply IH.
  intros y Hy. apply H. now right.
Qed.

Lemma uniq_fold (m : chapterMapT) (acc0 : list chapter) :
  fold_left (fun uniq entry => uniq ++ dedupGroup (snd entry)) m acc0
  = acc0 ++ uniqueOf m.
Proof.
  revert acc0. induction m as [|e m IH]; intros acc0; simpl.
  - now rewrite app_nil_r.
  - rewrite IH. now rewrite <- app_assoc.
Qed.

Lemma removeDuplicateChapters_unfold (chs : list chapter) :
  removeDuplicateChapters chs
  = sortBy compareChapters (uniqueOf (groupByNumber chs)).
Proof. unfold removeDuplicateChapters. now rewrite uniq_fold. Qed.

Lemma groupOf_absent (n : Z) (m : chapterMapT) :
  ~ In n (map fst m) -> groupOf n m = [].
Proof.
  induction m as [|[k l] m IH]; [reflexivity|].
  simpl. intros H. destruct (Z.eqb_spec k n) as [->|Hk].
  - exfalso. apply H. now left.
  - apply IH. intros Hin. apply H. now right.
Qed.

Lemma uniqueOf_filter (n : Z) (m : chapterMapT) :
  NoDup (map fst m) ->
  Forall (fun e => forallb (hasNum (fst e)) (snd e) = true) m ->
  filter (hasNum n) (uniqueOf m) = dedupGroup (groupOf n m).
Proof.
  induction m as [|[k l] m IH]; intros Hk Hf; [reflexivity|].
  inversion Hk as [|? ? Hnotin Hk']; subst.
  inversion Hf as [|? ? Hl Hf']; subst. simpl in Hl, Hnotin.
  unfold uniqueOf in *. cbn [flat_map snd groupOf]. rewrite filter_app.
  rewrite forallb_forall in Hl.
  destruct (Z.eqb_spec k n) as [->|Hne].
  - rewrite IH, groupOf_absent by assumption. simpl. rewrite app_nil_r.
    apply filter_all. intros x Hx. apply Hl. now apply dedupGroup_incl.
  - rewrite IH by assumption. rewrite filter_none; [reflexivity|].
    intros x Hx. apply dedupGroup_incl in Hx. apply Hl in Hx.
    apply hasNum_true in Hx. rewrite (hasNum_of x k n Hx).
    now apply Z.eqb_neq.
Qed.

Lemma uniqueOf_numbered (m : chapterMapT) :
  Forall (fun e => forallb (hasNum (fst e)) (snd e) = true) m ->
  Forall numbered (uniqueOf m).
Proof.
  induction 1 as [|[k l] m Hl Hm IH]; [constructor|].
  unfold uniqueOf in *. cbn [flat_map snd]. apply Forall_app. split; [|exact IH].
  apply Forall_forall. intros x Hx. apply dedupGroup_incl in Hx.
  simpl in Hl. rewrite forallb_forall in Hl. apply Hl, hasNum_true in Hx.
  unfold numbered. congruence.
Qed.

Lemma uniqueOf_length (m : chapterMapT) :
  (length (uniqueOf m) <= length (flat_map snd m))%nat.
Proof.
  induction m as [|[k l] m IH]; [reflexivity|].
  unfold uniqueOf in *. cbn [flat_map snd]. rewrite !length_app.
  pose proof (dedupGroup_length l). lia.
Qed.

(** ** The final sort *)

Lemma insertSorted_perm (cmp : chapter -> chapter -> Z) (x : chapter)
  (l : list chapter) : Permutation (insertSorted cmp x l) (x :: l).
Proof.
  induction l as [|y r IH]; simpl; [reflexivity|].
  destruct (cmp x y <=? 0); [reflexivity|].
  rewrite IH. apply perm_swap.
Qed.

Lemma sortBy_perm (cmp : chapter -> chapter -> Z) (l : list chapter) :
  Permutation (sortBy cmp l) l.
Proof.
  induction l as [|x l IH]; simpl; [reflexivity|].
  rewrite insertSorted_perm. now constructor.
Qed.

Lemma compare_numbered (a b : chapter) :
  numbered a -> numbered b ->
  (compareChapters a b <= 0 <-> keyOf a <= keyOf b).
Proof.
  unfold numbered, compareChapters, keyOf.
  destruct (chapterNumber (title a)), (chapterNumber (title b));
    try congruence.
  intros _ _. apply fsub_sign.
Qed.

Lemma hasNum_keyOf (n : Z) (c : chapter) : hasNum n c = true -> keyOf c = n.
Proof. intros H. apply hasNum_true in H. unfold keyOf. now rewrite H. Qed.

Lemma numbered_hasNum (c : chapter) : numbered c -> hasNum (keyOf c) c = true.
Proof.
  unfold numbered, hasNum, keyOf. destruct (chapterNumber (title c));
    [intros _; apply Z.eqb_refl | congruence].
Qed.

Lemma hasNum_numbered (n : Z) (c : chapter) : hasNum n c = true -> numbered c.
Proof. intros H. apply hasNum_true in H. unfold numbered. congruence. Qed.

(** The sort is stable: chapters of one number keep their order. *)
Lemma insertSorted_filter (n : Z) (x : chapter) (l : list chapter) :
  filter (hasNum n) (insertSorted compareChapters x l)
  = filter (hasNum n) (x :: l).
Proof.
  induction l as [|y r IH]; [reflexivity|].
  cbn [insertSorted]. destruct (Z.leb_spec (compareChapters x y) 0) as [Hle|Hgt];
    [reflexivity|].
  cbn [filter] in *. rewrite IH.
  destruct (hasNum n x) eqn:Ex, (hasNum n y) eqn:Ey; try reflexivity.
  exfalso.
  pose proof (compare_numbered x y (hasNum_numbered _ _ Ex)
                (hasNum_numbered _ _ Ey)) as Hc.
  apply hasNum_keyOf in Ex, Ey. lia.
Qed.

Lemma sortBy_filter (n : Z) (l : list chapter) :
  filter (hasNum n) (sortBy compareChapters l) = filter (hasNum n) l.
Proof.
  induction l as [|x l IH]; [reflexivity|].
  cbn [sortBy fold_right]. rewrite insertSorted_filter.
  cbn [filter]. fold (sortBy compareChapters l). now rewrite IH.
Qed.

Lemma insertSorted_sorted (x : chapter) (l : list chapter) :
  numbered x -> Forall numbered l ->
  StronglySorted Z.le (map keyOf l) ->
  StronglySorted Z.le (map keyOf (insertSorted compareChapters x l)).
Proof.
  intros Hx. induction l as [|y r IH]; intros Hl Hs.
  - simpl. repeat constructor.
  - inversion Hl as [|? ? Hy Hr]; subst.
    cbn [map] in Hs. inversion Hs as [|? ? Hs' Hall]; subst.
    cbn [insertSorted]. pose proof (compare_numbered x y Hx Hy) as Hc.
    destruct (Z.leb_spec (compareChapters x y) 0) as [Hle|Hgt]; cbn [map].
    + constructor; [now constructor|]. constructor; [lia|].
      eapply Forall_impl; [|exact Hall]. simpl. intros; lia.
    + constructor; [now apply IH|].
      apply Forall_forall. intros k Hk. apply in_map_iff in Hk as (z & <- & Hz).
      apply (Permutation_in _ (insertSorted_perm _ x r)) in Hz.
      destruct Hz as [<-|Hz]; [lia|].
      rewrite Forall_forall in Hall. apply Hall. now apply in_map.
Qed.

Lemma sortBy_sorted (l : list chapter) :
  Forall numbered l ->
  StronglySorted Z.le (map keyOf (sortBy compareChapters l)).
Proof.
  induction 1 as [|x l Hx Hl IH]; [constructor|].
  cbn [sortBy fold_right]. apply insertSorted_sorted; auto.
  eapply Permutation_Forall; [symmetry; apply sortBy_perm | assumption].
Qed.


(** What [removeDuplicateChapters] returns: numbered chapters only, in
    ascending order of number, and under every number the chapters the
    group loop keeps of the input chapters of that number. *)
Lemma removeDuplicateChapters_spec (chs : list chapter) :
  Forall numbered (removeDuplicateChapters chs)
  /\ StronglySorted Z.le (map keyOf (removeDuplicateChapters chs))
  /\ (forall n, filter (hasNum n) (removeDuplicateChapters chs)
                = dedupGroup (filter (hasNum n) chs))
  /\ (length (removeDuplicateChapters chs) <= length chs)%nat.
Proof.
  rewrite removeDuplicateChapters_unfold.
  destruct (groupByNumber_spec chs) as (Hk & Hf & Hg & Hl).
  pose proof (uniqueOf_numbered _ Hf) as Hn.
  split; [|split; [|split]].
  - eapply Permutation_Forall; [symmetry; apply sortBy_perm | assumption].
  - now apply sortBy_sorted.
  - intros n. rewrite sortBy_filter, uniqueOf_filter, Hg by assumption.
    reflexivity.
  - rewrite (Permutation_length (sortBy_perm _ _)).
    pose proof (uniqueOf_length (groupByNumber chs)). lia.
Qed.

(** ** The claims about duplicate removal *)

(** C1.  The code does not do what the claim says: a chapter whose title
    does not match the pattern of a numbered title is put in no group,
    and the output is built from the groups alone, so the chapter is
    missing from the output.  Here a prologue followed by chapter 1
    comes out as chapter 1 alone, and a lone prologue as nothing. *)
Theorem C1_unparsed_chapter_is_dropped :
  let prologue := mkChapter (js "楔子") (js "很久以前") in
  let first := mkChapter (js "第1章 开始") (js "你好") in
  chapterNumber (title prologue) = None
  /\ removeDuplicateChapters [prologue; first] = [first]
  /\ ~ In prologue (removeDuplicateChapters [prologue; first])
  /\ removeDuplicateChapters [prologue] = [].
Proof.
  cbv zeta. split; [reflexivity|]. split; [reflexivity|]. split; [|reflexivity].
  intros [H|[]]. discriminate H.
Qed.



(** C4.  Under every number, the output holds what the group loop keeps
    of the input chapters of that number.  The loop keeps the first
    chapter of a group; a later chapter is dropped exactly when its
    fingerprint (the first 5 characters of the body that are CJK
    ideographs or ASCII letters or digits) is not empty and is the
    fingerprint of a chapter kept before it, and is appended to the kept
    ones otherwise; what is kept once stays.  A chapter with an empty
    fingerprint is never dropped. *)
Theorem C4_group_deduplication :
  (forall chs n, filter (hasNum n) (removeDuplicateChapters chs)
                 = dedupGroup (filter (hasNum n) chs))
  /\ (forall c0 rest, exists tl, dedupGroup (c0 :: rest) = c0 :: tl)
  /\ (forall g c, g <> [] ->
        (duplicateOf (dedupGroup g) c -> dedupGroup (g ++ [c]) = dedupGroup g)
        /\ (~ duplicateOf (dedupGroup g) c ->
            dedupGroup (g ++ [c]) = dedupGroup g ++ [c]))
  /\ (forall g post, exists tl, dedupGroup (g ++ post) = dedupGroup g ++ tl)
  /\ (forall text, fingerprint text = firstn 5 (filter isFingerprintChar text))
  /\ (forall g c, g <> [] -> fingerprint (data c) = [] ->
        dedupGroup (g ++ [c]) = dedupGroup g ++ [c]).
Proof.
  assert (Hsnoc : forall g c, g <> [] ->
            (duplicateOf (dedupGroup g) c -> dedupGroup (g ++ [c]) = dedupGroup g)
            /\ (~ duplicateOf (dedupGroup g) c ->
                dedupGroup (g ++ [c]) = dedupGroup g ++ [c])).
  { intros g c Hg. rewrite dedupGroup_snoc by assumption.
    destruct (isDuplicate (dedupGroup g) c) eqn:E.
    - split; [reflexivity|]. intros Hn. exfalso. apply Hn.
      now apply isDuplicate_spec.
    - split; [|reflexivity]. intros Hd. apply isDuplicate_spec in Hd.
      congruence. }
  split; [intros chs n; apply removeDuplicateChapters_spec|].
  split.
  { intros c0 rest. destruct (dedupGroup_extra c0 rest) as (e & He & _).
    now exists e. }
  split; [exact Hsnoc|].
  split; [apply dedupGroup_prefix|].
  split; [reflexivity|].
  intros g c Hg Hfp. apply Hsnoc; [assumption|].
  intros [Hne _]. contradiction.
Qed.

Lemma C4_group_deduplication_witness :
  let a := mkChapter (js "第3章") (js "天地玄黄宇宙洪荒") in
  let b := mkChapter (js "第3章 重复") (js "天地玄黄宇，另一个来源") in
  let e := mkChapter (js "第3章") (js "……") in
  dedupGroup ([a] ++ [b]) = dedupGroup [a]
  /\ dedupGroup ([a] ++ [e]) = dedupGroup [a] ++ [e]
  /\ dedupGroup ([a; e] ++ [e]) = dedupGroup [a; e] ++ [e].
Proof.
  cbv zeta.
  destruct C4_group_deduplication as (_ & _ & Hsnoc & _ & _ & Hempty).
  split; [|split].
  - apply Hsnoc; [discriminate|]. split; [discriminate|].
    eexists. split; [left; reflexivity | reflexivity].
  - apply Hempty; [discriminate | reflexivity].
  - apply Hempty; [discriminate | reflexivity].
Defined.

(** ** Headings and canonical titles *)

Lemma isDigit_numeral (c : Z) : isDigit c = true -> isNumeralChar c = true.
Proof.
  intros H. unfold isNumeralChar. rewrite H.
  now destruct (digitMap c), (unitMap c).
Qed.

Lemma isDigit_not_newline (c : Z) : isDigit c = true -> c <> NL.
Proof. intros H%isDigit_range. unfold NL. lia. Qed.

Lemma notLineTerminator_not_newline (c : Z) :
  notLineTerminator c = true -> c <> NL.
Proof. intros H ->. discriminate H. Qed.

Lemma forallb_impl {A} (p q : A -> bool) (l : list A) :
  (forall x, p x = true -> q x = true) ->
  forallb p l = true -> forallb q l = true.
Proof.
  intros Hpq. rewrite !forallb_forall. auto.
Qed.

Lemma trim_trimEnd (s : jsstring) : trim s = s -> trimEnd s = s.
Proof.
  intros H. rewrite <- H at 1. unfold trim. rewrite trimEnd_idem. exact H.
Qed.

Lemma canonical_trim (n : Z) (sfx : jsstring) :
  goodSuffix sfx -> trim (canonical n sfx) = canonical n sfx.
Proof.
  intros [Ht _]. unfold canonical. destruct sfx as [|c r]; cbn [isEmpty].
  - change (c_zhang :: []) with ([c_zhang]).
    apply trim_fixed; [reflexivity | reflexivity | discriminate].
  - change (numberToString n ++ c_zhang :: SP :: c :: r)
      with (numberToString n ++ [c_zhang; SP] ++ (c :: r)).
    rewrite app_assoc.
    apply trim_fixed; [reflexivity | now apply trim_trimEnd | discriminate].
Qed.

Lemma plain_digits (n : Z) : plain n -> forallb isDigit (numberToString n) = true.
Proof. intros (v & Hv & _ & ->). now apply digitsOf_digits. Qed.

Lemma plain_parse (n : Z) : plain n -> parseInt (numberToString n) = n.
Proof.
  intros (v & Hv & Hr & ->). rewrite parseInt_fold. now rewrite parse_digitsOf.
Qed.

Lemma plain_small (n : Z) : 0 <= n < 2 ^ 53 -> plain n.
Proof.
  intros Hn. exists n. split; [lia|].
  split; [apply roundDouble_small; lia | now apply numberToString_small].
Qed.

Lemma canonical_chapterNumber (n : Z) (sfx : jsstring) :
  plain n -> chapterNumber (canonical n sfx) = Some n.
Proof.
  intros Hp. unfold canonical, chapterNumber.
  rewrite Z.eqb_refl.
  destruct (takeWhile_app_stop isDigit (numberToString n) c_zhang
              (if isEmpty sfx then [] else SP :: sfx)) as [-> ->];
    [now apply plain_digits | reflexivity |].
  destruct (numberToString n) eqn:E.
  - destruct Hp as (v & _ & _ & Hv). rewrite E in Hv. symmetry in Hv.
    now apply digitsOf_nonempty in Hv.
  - rewrite Z.eqb_refl, <- E. now rewrite plain_parse.
Qed.

(** A title whose number does not print as digits reads as no number. *)
Lemma canonical_unnumbered (n : Z) (sfx : jsstring) :
  isNumber n -> chapterNumber (canonical n sfx) <> None -> plain n.
Proof.
  intros Hn Hc.
  destruct (numberToString_form n Hn)
    as [(v & Hv & Hr & Hs)|(pre & x & r & Hs & Hpre & Hx & Hz)].
  - now exists v.
  - exfalso. apply Hc. unfold canonical, chapterNumber. rewrite Z.eqb_refl, Hs.
    rewrite <- app_assoc. cbn [app].
    destruct (takeWhile_app_stop isDigit pre x
                (r ++ c_zhang :: (if isEmpty sfx then [] else SP :: sfx)))
      as [-> ->]; [assumption | assumption |].
    destruct pre; [reflexivity|].
    destruct (Z.eqb_spec x c_zhang); [contradiction | reflexivity].
Qed.

Lemma canonical_no_newline (n : Z) (sfx : jsstring) :
  plain n -> goodSuffix sfx -> Forall (fun c => c <> NL) (canonical n sfx).
Proof.
  intros Hn [_ Hs]. unfold canonical.
  constructor; [discriminate|]. apply Forall_app. split.
  - apply Forall_forall. intros c Hc. apply isDigit_not_newline.
    pose proof (plain_digits n Hn) as Hd.
    rewrite forallb_forall in Hd. now apply Hd.
  - constructor; [discriminate|].
    assert (Hsfx : Forall (fun c => c <> NL) sfx).
    { apply Forall_forall. intros c Hc. apply notLineTerminator_not_newline.
      rewrite forallb_forall in Hs. now apply Hs. }
    destruct sfx; cbn [isEmpty]; [constructor|].
    constructor; [discriminate | assumption].
Qed.

Lemma chineseNumeral_of_digits (n : Z) :
  plain n -> chineseNumeralToNumber (numberToString n) = Some n.
Proof.
  intros Hn. unfold chineseNumeralToNumber.
  destruct (numberToString n) eqn:E.
  - destruct Hn as (v & _ & _ & Hv). rewrite E in Hv. symmetry in Hv.
    now apply digitsOf_nonempty in Hv.
  - cbn [isEmpty]. rewrite <- E, plain_digits by assumption.
    now rewrite plain_parse.
Qed.

(** A canonical title is a heading line, and the heading it opens has
    the same title. *)
Lemma canonical_heading (n : Z) (sfx : jsstring) :
  plain n -> goodSuffix sfx ->
  exists g2,
    headingMatch (canonical n sfx) = Some (numberToString n, g2)
    /\ headingTitle (canonical n sfx) (numberToString n) g2 = canonical n sfx.
Proof.
  intros Hn Hg. pose proof Hg as [Ht Hs].
  assert (Hm : exists g2, headingMatch (canonical n sfx)
                          = Some (numberToString n, g2) /\ suffixOf g2 = sfx).
  { unfold canonical, headingMatch. rewrite Z.eqb_refl.
    destruct (takeWhile_app_stop isNumeralChar (numberToString n) c_zhang
                (if isEmpty sfx then [] else SP :: sfx)) as [-> ->];
      [|reflexivity|].
    { eapply forallb_impl; [apply isDigit_numeral|].
      now apply plain_digits. }
    destruct (numberToString n) eqn:E.
    { destruct Hn as (v & _ & _ & Hv). rewrite E in Hv. symmetry in Hv.
      now apply digitsOf_nonempty in Hv. }
    rewrite Z.eqb_refl.
    destruct sfx as [|c r]; cbn [isEmpty].
    - eexists. split; reflexivity.
    - assert (Hc : isSpace c = false) by (eapply trim_head; exact Ht).
      cbn [dropWhile takeWhile]. change (isSpace SP) with true. cbv iota.
      rewrite Hc. cbn [isEmpty andb].
      rewrite (takeWhile_all _ _ Hs).
      eexists. split; [reflexivity|]. cbn [suffixOf]. exact Ht. }
  destruct Hm as (g2 & Hm & Hsfx). exists g2. split; [exact Hm|].
  unfold headingTitle. rewrite Hsfx, chineseNumeral_of_digits by assumption.
  now apply canonical_trim.
Qed.

Lemma headingMatch_inv (line chineseNum : jsstring) (g2 : option jsstring) :
  headingMatch line = Some (chineseNum, g2) ->
  chineseNum <> []
  /\ forall cap, g2 = Some cap -> forallb notLineTerminator cap = true.
Proof.
  unfold headingMatch. destruct line as [|c rest]; [discriminate|].
  destruct (c =? c_di); [|discriminate].
  destruct (takeWhile isNumeralChar rest) as [|d ds]; [discriminate|].
  destruct (dropWhile isNumeralChar rest) as [|z tail]; [discriminate|].
  destruct (z =? c_zhang); [|discriminate].
  intros H. inversion H; subst. split; [discriminate|].
  intros cap Hcap.
  destruct (isEmpty (takeWhile isSpace tail)
            && isEmpty (takeWhile notLineTerminator (dropWhile isSpace tail)));
    inversion Hcap; subst. apply takeWhile_forallb.
Qed.

Lemma suffixOf_good (g2 : option jsstring) :
  (forall cap, g2 = Some cap -> forallb notLineTerminator cap = true) ->
  goodSuffix (suffixOf g2).
Proof.
  intros H. destruct g2 as [[|c r]|]; cbn [suffixOf];
    try (split; reflexivity).
  split; [apply trim_idem|].
  apply forallb_forall. apply Forall_forall, trim_Forall, Forall_forall.
  apply forallb_forall. now apply H.
Qed.

(** The title of a heading: 第, the number as the template prints it,
    章, and the suffix after one space.  The raw line is never used. *)
Lemma headingTitle_value (line chineseNum : jsstring) (g2 : option jsstring) :
  headingMatch line = Some (chineseNum, g2) ->
  exists n, chineseNumeralToNumber chineseNum = Some n /\ isNumber n
            /\ goodSuffix (suffixOf g2)
            /\ headingTitle line chineseNum g2 = canonical n (suffixOf g2).
Proof.
  intros H. apply headingMatch_inv in H as [Hne Hcap].
  destruct (chineseNumeralToNumber_number chineseNum Hne) as (n & Hn & Hnum).
  pose proof (suffixOf_good g2 Hcap) as Hg.
  exists n. split; [assumption|]. split; [assumption|]. split; [assumption|].
  unfold headingTitle. rewrite Hn. now apply canonical_trim.
Qed.

Lemma headingTitle_form (line chineseNum : jsstring) (g2 : option jsstring) :
  headingMatch line = Some (chineseNum, g2) ->
  titleForm (headingTitle line chineseNum g2).
Proof.
  intros H. destruct (headingTitle_value _ _ _ H) as (n & _ & Hn & Hg & Ht).
  now exists n, (suffixOf g2).
Qed.

Lemma titleForm_nonempty (t : jsstring) : titleForm t -> t <> [].
Proof. intros (n & sfx & _ & _ & ->). discriminate. Qed.

Lemma canonicalTitle_form (t : jsstring) : canonicalTitle t -> titleForm t.
Proof. intros (n & sfx & Hn & _ & Hg & Ht). now exists n, sfx. Qed.

Lemma canonicalTitle_nonempty (t : jsstring) : canonicalTitle t -> t <> [].
Proof. intros H. now apply titleForm_nonempty, canonicalTitle_form. Qed.

Lemma canonicalTitle_numbered (t : jsstring) :
  canonicalTitle t -> chapterNumber t <> None.
Proof.
  intros (n & sfx & _ & Hn & _ & ->). rewrite canonical_chapterNumber by assumption.
  discriminate.
Qed.

(** The title of a heading that reads as a number is canonical. *)
Lemma titleForm_numbered (t : jsstring) :
  titleForm t -> chapterNumber t <> None -> canonicalTitle t.
Proof.
  intros (n & sfx & Hn & Hg & ->) Hc. exists n, sfx.
  split; [assumption|]. split; [now apply (canonical_unnumbered n sfx)|].
  now split.
Qed.

(** ** The segmenter *)

Lemma truthy_nonempty (t : jsstring) : t <> [] -> truthy (Some t) = Some t.
Proof. destruct t; [contradiction | reflexivity]. Qed.

Lemma chapterBody_good (content : list jsstring) :
  trim (chapterBody content) = chapterBody content /\ chapterBody content <> [].
Proof.
  unfold chapterBody. destruct (trim (join content)) as [|c r] eqn:E; cbn [isEmpty].
  - split; [reflexivity | discriminate].
  - split; [|discriminate]. rewrite <- E. apply trim_idem.
Qed.

Lemma chapterBody_split (body : jsstring) :
  trim body = body -> body <> [] -> chapterBody (split body) = body.
Proof.
  intros Ht Hne. unfold chapterBody. rewrite join_split, Ht.
  apply isEmpty_false in Hne. now rewrite Hne.
Qed.

Lemma flush_inv (st : segState) : segInv st -> Forall segChapter (flush st).
Proof.
  intros [Hc Ht]. unfold flush.
  destruct (currentChapter st) as [[|c r]|]; cbn [truthy]; try assumption.
  apply Forall_app. split; [assumption|]. constructor; [|constructor].
  split; [exact Ht | apply chapterBody_good].
Qed.

Lemma segmentStep_inv (st : segState) (line : jsstring) :
  segInv st -> segInv (segmentStep st line).
Proof.
  intros H. unfold segmentStep.
  destruct (headingMatch line) as [[chineseNum g2]|] eqn:E.
  - split; [now apply flush_inv | now apply (headingTitle_form line)].
  - destruct (truthy (currentChapter st)); [|assumption].
    destruct H as [Hc Ht]. split; assumption.
Qed.

Lemma fold_segmentStep_inv (lines : list jsstring) (st : segState) :
  segInv st -> segInv (fold_left segmentStep lines st).
Proof.
  revert st. induction lines as [|l ls IH]; intros st H; [assumption|].
  simpl. now apply IH, segmentStep_inv.
Qed.

(** The segmenter builds well-formed chapters only. *)
Lemma segment_wf (lines : list jsstring) : Forall segChapter (segment lines).
Proof.
  apply flush_inv, fold_segmentStep_inv. split; [constructor | exact I].
Qed.

(** A chapter of the segmenter whose title reads as a number has a
    canonical title. *)
Lemma segChapter_numbered (c : chapter) : segChapter c -> numbered c -> wfChapter c.
Proof.
  intros (Ht & Hb) Hn. split; [|exact Hb]. now apply titleForm_numbered.
Qed.

Lemma wfChapter_numbered (c : chapter) : wfChapter c -> numbered c.
Proof. intros [Ht _]. now apply canonicalTitle_numbered. Qed.

(** Lines that are not headings, outside any chapter, leave no trace. *)
Lemma fold_outside (lines : list jsstring) (chs : list chapter)
  (content : list jsstring) :
  forallb (fun l => negb (isHeading l)) lines = true ->
  fold_left segmentStep lines (mkSeg chs None content) = mkSeg chs None content.
Proof.
  induction lines as [|l ls IH]; [reflexivity|].
  cbn [forallb fold_left]. intros H. apply andb_prop in H as [Hl Hls].
  unfold isHeading in Hl.
  replace (segmentStep (mkSeg chs None content) l) with (mkSeg chs None content);
    [now apply IH|].
  unfold segmentStep.
  destruct (headingMatch l); [discriminate | reflexivity].
Qed.

(** Lines that are not headings, inside a chapter, join its body. *)
Lemma fold_inside (lines : list jsstring) (chs : list chapter) (t : jsstring)
  (content : list jsstring) :
  t <> [] ->
  forallb (fun l => negb (isHeading l)) lines = true ->
  fold_left segmentStep lines (mkSeg chs (Some t) content)
  = mkSeg chs (Some t) (content ++ lines).
Proof.
  intros Ht. revert content. induction lines as [|l ls IH]; intros content H.
  - now rewrite app_nil_r.
  - cbn [forallb fold_left] in *. apply andb_prop in H as [Hl Hls].
    unfold isHeading in Hl.
    replace (segmentStep (mkSeg chs (Some t) content) l)
      with (mkSeg chs (Some t) (content ++ [l])).
    + rewrite IH by assumption. now rewrite <- app_assoc.
    + unfold segmentStep. destruct (headingMatch l); [discriminate|].
      cbn [currentChapter chapters currentContent].
      now rewrite truthy_nonempty by assumption.
Qed.

Lemma inChapter_flush (st : segState) : inChapter st -> flush st <> [].
Proof.
  intros (t & Ht & Hne). unfold flush. rewrite Ht, truthy_nonempty by assumption.
  now destruct (chapters st).
Qed.

Lemma segmentStep_inChapter (st : segState) (line : jsstring) :
  inChapter st \/ isHeading line = true -> inChapter (segmentStep st line).
Proof.
  unfold segmentStep, isHeading.
  destruct (headingMatch line) as [[chineseNum g2]|] eqn:E.
  - intros _. eexists. split; [reflexivity|].
    now apply titleForm_nonempty, (headingTitle_form line).
  - intros [(t & Ht & Hne)|H]; [|discriminate].
    rewrite Ht, truthy_nonempty by assumption. exists t. now split.
Qed.

Lemma fold_inChapter (lines : list jsstring) (st : segState) :
  inChapter st \/ existsb isHeading lines = true ->
  inChapter (fold_left segmentStep lines st).
Proof.
  revert st. induction lines as [|l ls IH]; intros st H.
  - destruct H as [H|H]; [assumption | discriminate].
  - cbn [fold_left existsb] in *. apply IH.
    destruct H as [H|H].
    + left. apply segmentStep_inChapter. now left.
    + apply orb_prop in H as [H|H]; [|now right].
      left. apply segmentStep_inChapter. now right.
Qed.

Lemma no_heading_forallb (lines : list jsstring) :
  existsb isHeading lines = false <->
  forallb (fun l => negb (isHeading l)) lines = true.
Proof.
  induction lines as [|l ls IH]; [tauto|].
  cbn [existsb forallb]. rewrite orb_false_iff, andb_true_iff, IH.
  rewrite negb_true_iff. tauto.
Qed.

Lemma no_heading_In (lines : list jsstring) :
  forallb (fun l => negb (isHeading l)) lines = true <->
  forall l, In l lines -> headingMatch l = None.
Proof.
  rewrite forallb_forall. unfold isHeading.
  split; intros H l Hl; specialize (H l Hl);
    destruct (headingMatch l); try reflexivity; discriminate.
Qed.

(** The segmenter finds a chapter exactly when some line is a heading. *)
Lemma segment_nil_iff (lines : list jsstring) :
  segment lines = [] <-> forall l, In l lines -> headingMatch l = None.
Proof.
  rewrite <- no_heading_In. split.
  - intros H. apply no_heading_forallb.
    destruct (existsb isHeading lines) eqn:E; [|reflexivity].
    exfalso. revert H. apply inChapter_flush, fold_inChapter. now right.
  - intros H. unfold segment. now rewrite fold_outside.
Qed.

(** Lines before the first heading do not change the result. *)
Lemma segment_skip_preamble (pre rest : list jsstring) :
  (forall l, In l pre -> headingMatch l = None) ->
  segment (pre ++ rest) = segment rest.
Proof.
  intros H. apply no_heading_In in H. unfold segment.
  now rewrite fold_left_app, fold_outside.
Qed.

Lemma segmentStep_heading (st : segState) (line chineseNum : jsstring)
  (g2 : option jsstring) :
  headingMatch line = Some (chineseNum, g2) ->
  segmentStep st line = mkSeg (flush st) (Some (titleOfLine line)) [].
Proof. intros H. unfold segmentStep, titleOfLine. now rewrite H. Qed.

Lemma titleOfLine_nonempty (line : jsstring) :
  isHeading line = true -> titleOfLine line <> [].
Proof.
  unfold isHeading, titleOfLine.
  destruct (headingMatch line) as [[chineseNum g2]|] eqn:E; [|discriminate].
  intros _. now apply titleForm_nonempty, (headingTitle_form line).
Qed.

Lemma flush_titles_step (st : segState) (line : jsstring) :
  map title (flush (segmentStep st line))
  = map title (flush st)
      ++ (if isHeading line then [titleOfLine line] else []).
Proof.
  destruct (isHeading line) eqn:Eh.
  - pose proof (titleOfLine_nonempty line Eh) as Hne. unfold isHeading in Eh.
    destruct (headingMatch line) as [[chineseNum g2]|] eqn:E; [|discriminate].
    rewrite (segmentStep_heading st line chineseNum g2 E).
    unfold flush at 1. cbn [currentChapter chapters currentContent].
    rewrite truthy_nonempty by assumption. now rewrite map_app.
  - rewrite app_nil_r. unfold isHeading in Eh. unfold segmentStep.
    destruct (headingMatch line); [discriminate|].
    destruct (truthy (currentChapter st)) as [t|] eqn:Et; [|reflexivity].
    unfold flush. cbn [currentChapter chapters currentContent]. rewrite Et.
    now rewrite !map_app.
Qed.

Lemma flush_titles_fold (lines : list jsstring) (st : segState) :
  map title (flush (fold_left segmentStep lines st))
  = map title (flush st) ++ map titleOfLine (filter isHeading lines).
Proof.
  revert st. induction lines as [|l ls IH]; intros st.
  - cbn. now rewrite app_nil_r.
  - cbn [fold_left filter]. rewrite IH, flush_titles_step.
    destruct (isHeading l); cbn [map]; now rewrite <- app_assoc.
Qed.


(** ** Re-segmenting the re-serialised chapters *)

Lemma fold_chapter (c : chapter) (st : segState) :
  wfChapter c ->
  (forall l, In l (split (data c)) -> headingMatch l = None) ->
  fold_left segmentStep (title c :: split (data c)) st
  = mkSeg (flush st) (Some (title c)) (split (data c)).
Proof.
  intros [Ht _] Hbody. pose proof (canonicalTitle_nonempty _ Ht) as Hne.
  destruct Ht as (n & sfx & _ & Hn & Hg & Ht).
  destruct (canonical_heading n sfx Hn Hg) as (g2 & Hm & Htitle).
  cbn [fold_left].
  replace (segmentStep st (title c)) with (mkSeg (flush st) (Some (title c)) []).
  - rewrite fold_inside; [reflexivity | assumption | now apply no_heading_In].
  - unfold segmentStep. rewrite Ht, Hm, Htitle. reflexivity.
Qed.

Lemma segment_linesOf (out : list chapter) :
  forall st,
    Forall wfChapter out ->
    (forall c, In c out -> forall l, In l (split (data c)) -> headingMatch l = None) ->
    flush (fold_left segmentStep (linesOf out) st) = flush st ++ out.
Proof.
  induction out as [|c out IH]; intros st Hwf Hbody.
  - simpl. now rewrite app_nil_r.
  - inversion Hwf as [|? ? Hc Hout]; subst.
    unfold linesOf in *. cbn [flat_map]. rewrite fold_left_app.
    rewrite fold_chapter by (auto; apply Hbody; now left).
    rewrite IH; [|assumption | intros c' Hc'; apply Hbody; now right].
    unfold flush at 1. cbn [currentChapter chapters currentContent].
    destruct Hc as (Ht & Htrim & Hne).
    rewrite truthy_nonempty by now apply canonicalTitle_nonempty.
    rewrite chapterBody_split by assumption.
    rewrite <- app_assoc. now destruct c.
Qed.

Lemma split_serialize (out : list chapter) :
  out <> [] -> Forall wfChapter out -> split (serialize out) = linesOf out.
Proof.
  intros Hne Hwf. unfold serialize. rewrite split_join.
  - clear Hne. induction Hwf as [|c out Hc Hout IH]; [reflexivity|].
    unfold linesOf in *. cbn [flat_map app]. rewrite IH.
    destruct Hc as ((n & sfx & _ & Hn & Hg & Ht) & _).
    rewrite (split_no_newline (title c)); [reflexivity|].
    rewrite Ht. now apply canonical_no_newline.
  - destruct out; [contradiction | discriminate].
Qed.

(** Well-formed chapters whose body lines are not headings come back
    from the segmenter as they are. *)
Lemma segment_serialize (out : list chapter) :
  Forall wfChapter out ->
  (forall c, In c out -> forall l, In l (split (data c)) -> headingMatch l = None) ->
  segment (split (serialize out)) = out.
Proof.
  intros Hwf Hbody. destruct out as [|c out']; [reflexivity|].
  rewrite split_serialize by (auto; discriminate).
  unfold segment. now rewrite segment_linesOf.
Qed.

(** ** Duplicate removal is determined by its groups *)

Lemma sorted_filter_ext (l1 : list chapter) :
  forall l2,
    Forall numbered l1 -> Forall numbered l2 ->
    StronglySorted Z.le (map keyOf l1) ->
    StronglySorted Z.le (map keyOf l2) ->
    (forall n, filter (hasNum n) l1 = filter (hasNum n) l2) ->
    l1 = l2.
Proof.
  assert (Hmin : forall (a x : chapter) (l : list chapter),
             StronglySorted Z.le (map keyOf (a :: l)) ->
             In x (a :: l) -> keyOf a <= keyOf x).
  { intros a x l Hs [<-|Hx]; [lia|].
    cbn [map] in Hs. inversion Hs as [|? ? _ Hall]; subst.
    rewrite Forall_forall in Hall. apply Hall. now apply in_map. }
  assert (Hhead : forall (a b : chapter) (m1 m2 : list chapter),
             numbered b ->
             StronglySorted Z.le (map keyOf (a :: m1)) ->
             (forall n, filter (hasNum n) (a :: m1) = filter (hasNum n) (b :: m2)) ->
             keyOf a <= keyOf b).
  { intros a b m1 m2 Hb Hs Hf.
    assert (Hin : In b (filter (hasNum (keyOf b)) (a :: m1))).
    { rewrite Hf. cbn [filter]. rewrite numbered_hasNum by assumption. now left. }
    apply filter_In in Hin as [Hin _]. now apply (Hmin a b m1). }
  induction l1 as [|a l1 IH]; intros l2 Hn1 Hn2 Hs1 Hs2 Hf.
  - destruct l2 as [|b l2]; [reflexivity|]. exfalso.
    inversion Hn2 as [|? ? Hb _]; subst.
    specialize (Hf (keyOf b)). cbn [filter] in Hf.
    rewrite numbered_hasNum in Hf by assumption. discriminate.
  - inversion Hn1 as [|? ? Ha Hn1']; subst.
    destruct l2 as [|b l2].
    { exfalso. specialize (Hf (keyOf a)). cbn [filter] in Hf.
      rewrite numbered_hasNum in Hf by assumption. discriminate. }
    inversion Hn2 as [|? ? Hb Hn2']; subst.
    assert (Hk : keyOf a = keyOf b).
    { pose proof (Hhead a b l1 l2 Hb Hs1 Hf).
      pose proof (Hhead b a l2 l1 Ha Hs2 (fun n => eq_sym (Hf n))). lia. }
    assert (Hab : a = b).
    { specialize (Hf (keyOf a)). cbn [filter] in Hf.
      rewrite numbered_hasNum in Hf by assumption.
      rewrite Hk, numbered_hasNum in Hf by assumption. congruence. }
    subst b. f_equal. apply IH; try assumption.
    + cbn [map] in Hs1. now inversion Hs1.
    + cbn [map] in Hs2. now inversion Hs2.
    + intros n. specialize (Hf n). cbn [filter] in Hf.
      destruct (hasNum n a); congruence.
Qed.

(** A sorted list of numbered chapters whose groups hold no duplicate is
    left as it is. *)
Lemma removeDuplicateChapters_fixed (l : list chapter) :
  Forall numbered l ->
  StronglySorted Z.le (map keyOf l) ->
  (forall n, dedupGroup (filter (hasNum n) l) = filter (hasNum n) l) ->
  removeDuplicateChapters l = l.
Proof.
  intros Hn Hs Hg.
  destruct (removeDuplicateChapters_spec l) as (Hn' & Hs' & Hf' & _).
  apply sorted_filter_ext; try assumption.
  intros n. now rewrite Hf', Hg.
Qed.

Lemma removeDuplicateChapters_idem (chs : list chapter) :
  removeDuplicateChapters (removeDuplicateChapters chs)
  = removeDuplicateChapters chs.
Proof.
  destruct (removeDuplicateChapters_spec chs) as (Hn & Hs & Hf & _).
  apply removeDuplicateChapters_fixed; try assumption.
  intros n. rewrite Hf. apply dedupGroup_idem.
Qed.

(** The first input chapter of a number is kept. *)
Lemma removeDuplicateChapters_keeps_first (pre post : list chapter)
  (c : chapter) (n : Z) :
  chapterNumber (title c) = Some n ->
  (forall c', In c' pre -> chapterNumber (title c') <> Some n) ->
  In c (removeDuplicateChapters (pre ++ c :: post)).
Proof.
  intros Hc Hpre.
  destruct (removeDuplicateChapters_spec (pre ++ c :: post)) as (_ & _ & Hf & _).
  assert (Hin : In c (filter (hasNum n) (removeDuplicateChapters (pre ++ c :: post)))).
  { rewrite Hf, filter_app. rewrite filter_none.
    - cbn [app filter]. apply hasNum_true in Hc. rewrite Hc.
      destruct (dedupGroup_extra c (filter (hasNum n) post)) as (e & -> & _).
      now left.
    - intros x Hx. destruct (hasNum n x) eqn:E; [|reflexivity].
      apply hasNum_true in E. now apply Hpre in Hx. }
  apply filter_In in Hin. tauto.
Qed.

Lemma removeDuplicateChapters_incl (chs : list chapter) (c : chapter) :
  In c (removeDuplicateChapters chs) -> In c chs.
Proof.
  destruct (removeDuplicateChapters_spec chs) as (Hn & _ & Hf & _).
  intros Hc. rewrite Forall_forall in Hn.
  pose proof (numbered_hasNum c (Hn c Hc)) as Hk.
  assert (Hin : In c (filter (hasNum (keyOf c)) (removeDuplicateChapters chs)))
    by (apply filter_In; now split).
  rewrite Hf in Hin. apply dedupGroup_incl, filter_In in Hin. tauto.
Qed.

(** Duplicate removal empties no list of numbered chapters. *)
Lemma removeDuplicateChapters_nil_iff (chs : list chapter) :
  Forall numbered chs -> (removeDuplicateChapters chs = [] <-> chs = []).
Proof.
  intros Hn. split; [|now intros ->].
  destruct chs as [|c chs]; [reflexivity|]. intros H. exfalso.
  inversion Hn as [|? ? Hc _]; subst. unfold numbered in Hc.
  destruct (chapterNumber (title c)) as [n|] eqn:E; [|congruence].
  pose proof (removeDuplicateChapters_keeps_first [] chs c n E) as Hin.
  cbn [app] in Hin. rewrite H in Hin. apply Hin. intros c' [].
Qed.


Lemma splitIntoChapters_wf (content : jsstring) :
  Forall wfChapter (splitIntoChapters content).
Proof.
  destruct (removeDuplicateChapters_spec (segment (split content))) as (Hn & _).
  apply Forall_forall. intros c Hc. apply segChapter_numbered.
  - apply removeDuplicateChapters_incl in Hc.
    pose proof (segment_wf (split content)) as H. rewrite Forall_forall in H.
    now apply H.
  - rewrite Forall_forall in Hn. now apply Hn.
Qed.

(** A text without heading gives no chapter. *)
Lemma splitIntoChapters_no_heading (content : jsstring) :
  (forall l, In l (split content) -> headingMatch l = None) ->
  splitIntoChapters content = [].
Proof.
  intros H. unfold splitIntoChapters. apply segment_nil_iff in H. now rewrite H.
Qed.



(** C10.  Every chapter of the output of removeDuplicateChapters is a
    chapter of the input, with its title and body; the output is no
    longer than the input; and for every number borne by an input title,
    the first input chapter with that number is in the output. *)

Theorem C10_output_from_input (chs : list chapter) :
  (forall c, In c (removeDuplicateChapters chs) -> In c chs)
  /\ (length (removeDuplicateChapters chs) <= length chs)%nat
  /\ (forall n pre c post,
        chs = pre ++ c :: post ->
        chapterNumber (title c) = Some n ->
        (forall c', In c' pre -> chapterNumber (title c') <> Some n) ->
        In c (removeDuplicateChapters chs)).
Proof.
  destruct (removeDuplicateChapters_spec chs) as (_ & _ & _ & Hl).
  split; [|split; [exact Hl|]].
  - intros c. apply removeDuplicateChapters_incl.
  - intros n pre c post -> Hc Hpre.
    now apply removeDuplicateChapters_keeps_first with (n := n).
Qed.

Lemma C10_output_from_input_witness :
  let a := mkChapter (js "第2章") (js "世界") in
  let b := mkChapter (js "第1章") (js "你好") in
  let chs := [a; b; a] in
  In b (removeDuplicateChapters chs) /\ In b chs.
Proof.
  cbv zeta. set (a := mkChapter (js "第2章") (js "世界")).
  set (b := mkChapter (js "第1章") (js "你好")).
  destruct (C10_output_from_input [a; b; a]) as (Hin & _ & Hfirst).
  assert (H : In b (removeDuplicateChapters [a; b; a])).
  { apply (Hfirst 1 [a] b [a]); [reflexivity | reflexivity |].
    intros c' [<-|[]]. discriminate. }
  split; [exact H | exact (Hin b H)].
Defined.

(** ** The claims about segmentation and the conversion *)

(** C5.  Scenario A: the text of two headings 第一章 开始 and 第二章 with
    the bodies 你好 and 世界 gives exactly two chapters, numbered 1 and 2,
    titled 第1章 开始 and 第2章, with these bodies, and 4 words in total. *)
Theorem C5_scenario_A :
  let doc := js "第一章 开始" ++ NL :: js "你好" ++ NL :: NL
               :: js "第二章" ++ NL :: js "世界" in
  splitIntoChapters doc
  = [mkChapter (js "第1章 开始") (js "你好"); mkChapter (js "第2章") (js "世界")]
  /\ map (fun c => chapterNumber (title c)) (splitIntoChapters doc)
     = [Some 1; Some 2]
  /\ countTotalWords (splitIntoChapters doc) = 4.
Proof. cbv zeta. repeat split; reflexivity. Qed.

(** C6.  Lines before the first heading are discarded: the segmenter
    gives the same chapters for a text with and without such lines, and
    no chapter at all when no line is a heading.  Scenario C: the text
    of the lines intro text, 第1章, 正文 gives exactly the chapter
    numbered 1, titled 第1章, with the body 正文. *)
Theorem C6_preamble_discarded :
  (forall pre rest : list jsstring,
      (forall l, In l pre -> headingMatch l = None) ->
      segment (pre ++ rest) = segment rest)
  /\ (forall pre rest : jsstring,
        (forall l, In l (split pre) -> headingMatch l = None) ->
        splitIntoChapters (pre ++ NL :: rest) = splitIntoChapters rest)
  /\ (forall doc : jsstring,
        (forall l, In l (split doc) -> headingMatch l = None) ->
        splitIntoChapters doc = [])
  /\ (let doc := js "intro text" ++ NL :: js "第1章" ++ NL :: js "正文" in
      splitIntoChapters doc = [mkChapter (js "第1章") (js "正文")]
      /\ map (fun c => chapterNumber (title c)) (splitIntoChapters doc) = [Some 1]
      /\ splitIntoChapters doc
         = splitIntoChapters (js "第1章" ++ NL :: js "正文")).
Proof.
  split; [exact segment_skip_preamble|]. split; [|split].
  - intros pre rest H. unfold splitIntoChapters.
    now rewrite split_app, segment_skip_preamble.
  - intros doc H. now apply splitIntoChapters_no_heading.
  - cbv zeta. repeat split; reflexivity.
Qed.

Lemma C6_preamble_discarded_witness :
  segment ([js "intro text"; js "more"] ++ [js "第1章"; js "正文"])
  = segment [js "第1章"; js "正文"]
  /\ splitIntoChapters (js "intro text" ++ NL :: js "第1章" ++ NL :: js "正文")
     = splitIntoChapters (js "第1章" ++ NL :: js "正文")
  /\ splitIntoChapters (js "no heading here") = [].
Proof.
  destruct C6_preamble_discarded as (Hseg & Hpre & Hnone & _).
  split; [|split].
  - apply Hseg. apply no_heading_In. reflexivity.
  - apply Hpre. apply no_heading_In. reflexivity.
  - apply Hnone. apply no_heading_In. reflexivity.
Defined.

(** C7, as stated, fails on both sides.  A line can match the heading
    grammar and the conversion still find no chapter: the number of a
    22-digit numeral prints as 1e+21, the title 第1e+21章 reads as no
    number, and duplicate removal drops the chapter.  And the no-chapter
    error is not the only hard error: with a chapter found, a failure of
    the packaging is thrown, and a missing option is thrown before any
    segmentation. *)
Lemma C7_counterexample :
  let self := mkOptions false [] in
  let options := mkConvert (Some (js "a.txt")) (Some (js "a.epub"))
                   (Some (js "t")) (Some (js "a")) (Some (js "m")) None in
  let big := js "第1000000000000000000000章" in
  let doc := big ++ NL :: js "x" in
  let doc1 := js "第1章" ++ NL :: js "x" in
  (In big (split doc) /\ isHeading big = true
   /\ titleOfLine big = js "第1e+21章"
   /\ splitIntoChapters doc = []
   /\ convertTxtToEpub (fun _ => Some doc) (fun _ _ _ => true) self options
      = Thrown NoChaptersFound)
  /\ (splitIntoChapters doc1 = [mkChapter (js "第1章") (js "x")]
      /\ convertTxtToEpub (fun _ => Some doc1) (fun _ _ _ => false) self options
         = Thrown PackagingFailed)
  /\ convertTxtToEpub (fun _ => Some doc1) (fun _ _ _ => true) self
       (mkConvert (Some (js "a.txt")) (Some (js "a.epub"))
          (Some (js "t")) (Some (js "a")) None None)
     = Thrown MissingParameters.
Proof.
  cbv zeta. split; [|split].
  - split; [left; reflexivity|]. repeat split; vm_compute; reflexivity.
  - split; vm_compute; reflexivity.
  - reflexivity.
Qed.



Lemma bodies_not_headings (out : list chapter) :
  forallb (fun c => forallb (fun l => negb (isHeading l)) (split (data c))) out
  = true ->
  forall c, In c out -> forall l, In l (split (data c)) -> headingMatch l = None.
Proof.
  intros H c Hc. rewrite forallb_forall in H. apply no_heading_In. now apply H.
Qed.

(** C8, as stated, fails: the body of a chapter is trimmed as a whole,
    so a body line that starts with white space and then a heading
    becomes a heading line of the re-serialised text.  Here one chapter
    comes back as two. *)
Lemma C8_counterexample :
  let doc := js "第1章" ++ NL :: js " 第2章" ++ NL :: js "x" in
  let out := splitIntoChapters doc in
  out = [mkChapter (js "第1章") (js "第2章" ++ NL :: js "x")]
  /\ splitIntoChapters (serialize out)
     = [mkChapter (js "第1章") placeholder; mkChapter (js "第2章") (js "x")]
  /\ length (splitIntoChapters (serialize out)) <> length out
  /\ map title (splitIntoChapters (serialize out)) <> map title out
  /\ length (segment (split (serialize out))) <> length out.
Proof.
  cbv zeta. split; [reflexivity|]. split; [reflexivity|].
  repeat split; vm_compute; discriminate.
Qed.

(** C8, amended.  When no line of the body of an output chapter is a
    heading, re-serialising the output of splitIntoChapters (every
    chapter as its title line followed by its body) and segmenting again
    gives the same chapters, before and after duplicate removal; so the
    chapter count and the titles are the same. *)
Theorem C8_round_trip (doc : jsstring) :
  let out := splitIntoChapters doc in
  (forall c, In c out -> forall l, In l (split (data c)) -> headingMatch l = None) ->
  segment (split (serialize out)) = out
  /\ splitIntoChapters (serialize out) = out
  /\ length (splitIntoChapters (serialize out)) = length out
  /\ map title (splitIntoChapters (serialize out)) = map title out.
Proof.
  intros out Hbody.
  assert (Hseg : segment (split (serialize out)) = out)
    by (apply segment_serialize; [apply splitIntoChapters_wf | assumption]).
  assert (Hsplit : splitIntoChapters (serialize out) = out).
  { unfold splitIntoChapters at 1. rewrite Hseg.
    unfold out, splitIntoChapters. apply removeDuplicateChapters_idem. }
  rewrite Hsplit. auto.
Qed.

Lemma C8_round_trip_witness :
  let doc := js "第一章 开始" ++ NL :: js "你好" ++ NL :: NL
               :: js "第二章" ++ NL :: js "世界" in
  let out := splitIntoChapters doc in
  segment (split (serialize out)) = out
  /\ splitIntoChapters (serialize out) = out
  /\ length (splitIntoChapters (serialize out)) = length out
  /\ map title (splitIntoChapters (serialize out)) = map title out.
Proof.
  cbv zeta. apply C8_round_trip. apply bodies_not_headings. reflexivity.
Defined.

(** ** Totality *)




(** C9, as stated, fails: on a numeral of 310 decimal digits the
    normaliser returns Infinity, which is no integer. *)
Lemma C9_counterexample :
  chineseNumeralToNumber (repeat 57 310) = Some Infinity
  /\ isInteger Infinity = false.
Proof. split; vm_compute; reflexivity. Qed.



(** * Further properties of the code *)

(** ** The advertisement filter *)

Lemma isPrefix_spec (p s : jsstring) :
  isPrefix p s = true <-> exists post, s = p ++ post.
Proof.
  revert s. induction p as [|a p IH]; intros s.
  - simpl. split; [intros _; now exists s | reflexivity].
  - destruct s as [|b s]; simpl.
    + split; [discriminate | intros (post & H); discriminate].
    + rewrite andb_true_iff, Z.eqb_eq, IH. split.
      * intros (-> & post & ->). now exists post.
      * intros (post & H). inversion H; subst. split; [reflexivity | now exists post].
Qed.

Lemma includes_spec (line keyword : jsstring) :
  includes line keyword = true <-> substring keyword line.
Proof.
  unfold substring. induction line as [|c r IH].
  - simpl. rewrite orb_false_r, isPrefix_spec. split.
    + intros (post & H). now exists [], post.
    + intros (pre & post & H). destruct pre; [now exists post|discriminate].
  - cbn [includes]. rewrite orb_true_iff, isPrefix_spec, IH. split.
    + intros [(post & H)|(pre & post & H)].
      * now exists [], post.
      * exists (c :: pre), post. now rewrite H.
    + intros (pre & post & H). destruct pre as [|d pre].
      * left. now exists post.
      * right. inversion H; subst. now exists pre, post.
Qed.

Lemma includes_empty_keyword (line : jsstring) : includes line [] = true.
Proof. destruct line; reflexivity. Qed.

(** X1.  A line passes the filter exactly when it is a line of the input
    and no keyword occurs in it. *)
Theorem filterLines_kept_iff (keywords lines : list jsstring) (l : jsstring) :
  In l (filterLines keywords lines)
  <-> In l lines /\ forall k, In k keywords -> ~ substring k l.
Proof.
  unfold filterLines. rewrite filter_In, negb_true_iff. split.
  - intros [Hl Hk]. split; [assumption|]. intros k Hin Hsub.
    apply includes_spec in Hsub.
    assert (existsb (fun keyword => includes l keyword) keywords = true)
      by (apply existsb_exists; eauto).
    congruence.
  - intros [Hl Hk]. split; [assumption|].
    destruct (existsb _ keywords) eqn:E; [|reflexivity].
    apply existsb_exists in E as (k & Hin & Hinc).
    apply includes_spec in Hinc. now apply Hk in Hinc.
Qed.

(** X2.  The empty string is contained in every line: a keyword list
    that holds it filters every line out, and the processed text is
    empty. *)
Theorem empty_keyword_drops_everything (keywords : list jsstring)
  (content : jsstring) :
  In [] keywords ->
  filterLines keywords (split content) = []
  /\ processContent (mkOptions true keywords) content = [].
Proof.
  intros Hin.
  assert (H : forall lines, filterLines keywords lines = []).
  { intros lines. unfold filterLines. apply filter_none. intros l _.
    apply negb_false_iff, existsb_exists. exists []. split; [assumption|].
    apply includes_empty_keyword. }
  split; [apply H|]. unfold processContent. cbn [filterAds adKeywords].
  now rewrite H.
Qed.

Lemma empty_keyword_drops_everything_witness :
  processContent (mkOptions true [js "广告"; js ""])
    (js "第一章" ++ NL :: js "正文") = [].
Proof.
  apply empty_keyword_drops_everything. right. left. reflexivity.
Defined.

Lemma split_lines_no_newline (s : jsstring) :
  Forall (fun l => Forall (fun c => c <> NL) l) (split s).
Proof.
  induction s as [|c r IH]; simpl.
  - repeat constructor.
  - destruct (Z.eqb_spec c NL) as [->|Hc]; [now constructor|].
    destruct (split r) as [|l ls]; [repeat constructor; assumption|].
    inversion IH; subst. constructor; [now constructor | assumption].
Qed.

Lemma flat_map_split_lines (ls : list jsstring) :
  Forall (fun l => Forall (fun c => c <> NL) l) ls -> flat_map split ls = ls.
Proof.
  induction 1 as [|l ls Hl Hls IH]; [reflexivity|].
  cbn [flat_map]. now rewrite split_no_newline, IH.
Qed.

(** The lines of the joined lines are the lines, unless there is none:
    then the text is empty and has one empty line. *)
Lemma split_join_lines (ls : list jsstring) :
  Forall (fun l => Forall (fun c => c <> NL) l) ls ->
  split (join ls) = match ls with [] => [[]] | _ => ls end.
Proof.
  intros H. destruct ls as [|l r]; [reflexivity|].
  rewrite split_join by discriminate. now apply flat_map_split_lines.
Qed.

Lemma filterLines_no_newline (keywords lines : list jsstring) :
  Forall (fun l => Forall (fun c => c <> NL) l) lines ->
  Forall (fun l => Forall (fun c => c <> NL) l) (filterLines keywords lines).
Proof.
  intros H. apply Forall_forall. intros l Hl. rewrite Forall_forall in H.
  apply H. unfold filterLines in Hl. now apply filter_In in Hl.
Qed.

(** The lines of the processed text, when the filter is on. *)
Lemma processContent_lines (keywords : list jsstring) (content : jsstring) :
  split (processContent (mkOptions true keywords) content)
  = match filterLines keywords (split (stripBOM content)) with
    | [] => [[]]
    | kept => kept
    end.
Proof.
  unfold processContent. cbn [filterAds adKeywords].
  rewrite split_join_lines;
    [|apply filterLines_no_newline, split_lines_no_newline].
  now destruct (filterLines keywords (split (stripBOM content))).
Qed.

(** X3.  With the filter on, no line of the processed text contains a
    non-empty keyword, and every line is a line of the text read, or the
    empty line that is left when all lines are filtered out. *)
Theorem processed_lines_hold_no_keyword (keywords : list jsstring)
  (content l : jsstring) :
  In l (split (processContent (mkOptions true keywords) content)) ->
  (forall k, In k keywords -> k <> [] -> ~ substring k l)
  /\ (In l (split (stripBOM content)) \/ l = []).
Proof.
  rewrite processContent_lines. intros Hl.
  destruct (filterLines keywords (split (stripBOM content))) as [|x kept] eqn:E.
  - destruct Hl as [<-|[]]. split; [|now right].
    intros k _ Hne (pre & post & Heq).
    destruct pre, k; [contradiction | discriminate..].
  - rewrite <- E in Hl. apply filterLines_kept_iff in Hl as [Hin Hk].
    split; [|now left]. intros k Hin' _. now apply Hk.
Qed.

Lemma processed_lines_hold_no_keyword_witness :
  ~ substring (js "广告") (js "正文").
Proof.
  apply (processed_lines_hold_no_keyword [js "广告"]
           (js "买广告位" ++ NL :: js "正文") (js "正文")).
  - left. reflexivity.
  - left. reflexivity.
  - discriminate.
Defined.

(** ** The numeral normaliser on well-formed numerals *)

Lemma unit_cases (ch u : Z) :
  unitMap ch = Some u ->
  (ch = c_shi /\ u = 10) \/ (ch = c_bai /\ u = 100) \/ (ch = c_qian /\ u = 1000)
  \/ (ch = c_wan /\ u = 10000) \/ (ch = c_yi8 /\ u = 100000000).
Proof.
  unfold unitMap.
  repeat match goal with
         | |- context [ch =? ?c] => destruct (Z.eqb_spec ch c)
         end; intros H; inversion H; subst; tauto.
Qed.

Lemma unit_not_digit (ch u : Z) :
  unitMap ch = Some u -> digitMap ch = None /\ isDigit ch = false.
Proof.
  intros H. apply unit_cases in H.
  destruct H as [[-> _]|[[-> _]|[[-> _]|[[-> _]|[-> _]]]]]; now split.
Qed.

Lemma digit_not_ascii (ch d : Z) : digitMap ch = Some d -> isDigit ch = false.
Proof.
  unfold digitMap.
  repeat match goal with
         | |- context [ch =? ?c] => destruct (Z.eqb_spec ch c); [subst; reflexivity|]
         end.
  discriminate.
Qed.

Lemma numeralStep_big (a : acc) (ch u : Z) :
  bigUnit ch u ->
  numeralStep a ch
  = mkAcc (fadd (result a) (fmul (fadd (section a) (number a)) u)) 0 0.
Proof.
  intros [Hu Hbig]. unfold numeralStep.
  destruct (unit_not_digit ch u Hu) as [-> _]. rewrite Hu.
  destruct (Z.leb_spec 10000 u); [reflexivity | lia].
Qed.

Lemma numeralStep_digit (a : acc) (ch d : Z) :
  digitMap ch = Some d -> numeralStep a ch = mkAcc (result a) (section a) d.
Proof. intros H. unfold numeralStep. now rewrite H. Qed.

Lemma numeralStep_small (a : acc) (ch u : Z) :
  unitMap ch = Some u -> u < 10000 ->
  numeralStep a ch
  = mkAcc (result a) (fadd (section a) (fmul (orOne (number a)) u)) 0.
Proof.
  intros Hu Hsmall. unfold numeralStep.
  destruct (unit_not_digit ch u Hu) as [-> _]. rewrite Hu.
  destruct (Z.leb_spec 10000 u); [lia | reflexivity].
Qed.





Lemma numeralLoop_app (s1 s2 : jsstring) (a : acc) :
  numeralLoop (s1 ++ s2) a = numeralLoop s2 (numeralLoop s1 a).
Proof.
  revert a. induction s1 as [|ch s1 IH]; intros a; [reflexivity|].
  cbn [app numeralLoop]. apply IH.
Qed.

Lemma loop_path (s : jsstring) :
  s <> [] -> forallb isDigit s = false ->
  chineseNumeralToNumber s = Some (loopValue s).
Proof.
  intros Hne Hd. unfold chineseNumeralToNumber, loopValue.
  apply isEmpty_false in Hne. now rewrite Hne, Hd.
Qed.

Lemma forallb_app_false {A} (p : A -> bool) (l1 : list A) (x : A) (l2 : list A) :
  p x = false -> forallb p (l1 ++ x :: l2) = false.
Proof.
  intros H. rewrite forallb_app. cbn [forallb]. rewrite H.
  now rewrite andb_false_r.
Qed.



(** X5.  Myriad-scale units do not compound: a second such unit right
    after the first adds nothing, so 万亿 is read as 万. *)
Theorem normalizer_units_do_not_compound (s rest : jsstring) (U1 u1 U2 u2 : Z) :
  bigUnit U1 u1 -> bigUnit U2 u2 ->
  chineseNumeralToNumber (s ++ U1 :: U2 :: rest)
  = chineseNumeralToNumber (s ++ U1 :: rest).
Proof.
  intros H1 H2. pose proof H1 as [Hu1 _].
  rewrite !loop_path;
    try (now destruct s);
    try (apply forallb_app_false; now apply (unit_not_digit U1 u1)).
  f_equal. unfold loopValue. rewrite !numeralLoop_app. cbn [numeralLoop].
  rewrite (numeralStep_big _ U1 u1 H1), (numeralStep_big _ U2 u2 H2).
  cbn [result section number].
  assert (Ha : accNonneg (numeralLoop s (mkAcc 0 0 0))).
  { apply numeralLoop_nonneg. unfold accNonneg. cbn [result section number]. lia. }
  destruct Ha as (Hn & Hs & Hr).
  set (a := numeralLoop s (mkAcc 0 0 0)) in *.
  change (fadd 0 0) with 0. rewrite (fmul_small 0 u2) by (pow53; lia).
  rewrite Z.mul_0_l, fadd_0_r; [reflexivity|].
  apply fadd_isNumber; [assumption | apply roundDouble_nonneg].
  pose proof (unitMap_range _ _ Hu1).
  pose proof (roundDouble_nonneg (section a + number a) ltac:(lia)).
  unfold fadd. nia.
Qed.

Lemma normalizer_units_do_not_compound_witness :
  chineseNumeralToNumber (js "一" ++ c_wan :: c_yi8 :: [])
  = chineseNumeralToNumber (js "一" ++ c_wan :: []).
Proof.
  apply (normalizer_units_do_not_compound _ _ c_wan 10000 c_yi8 100000000);
    split; solve [reflexivity | lia].
Defined.

(** X6.  A numeral of four places, digit 千 digit 百 digit 十 digit, is
    worth what it reads, a zero digit before a unit counting as one. *)
Theorem normalizer_four_places (a b c d va vb vc vd : Z) :
  digitMap a = Some va -> digitMap b = Some vb ->
  digitMap c = Some vc -> digitMap d = Some vd ->
  chineseNumeralToNumber [a; c_qian; b; c_bai; c; c_shi; d]
  = Some (orOne va * 1000 + orOne vb * 100 + orOne vc * 10 + vd).
Proof.
  intros Ha Hb Hc Hd.
  pose proof (digitMap_range _ _ Ha) as Ra.
  pose proof (digitMap_range _ _ Hb) as Rb.
  pose proof (digitMap_range _ _ Hc) as Rc.
  pose proof (digitMap_range _ _ Hd) as Rd.
  assert (Oa : 1 <= orOne va <= 9) by (unfold orOne; destruct (Z.eqb_spec va 0); lia).
  assert (Ob : 1 <= orOne vb <= 9) by (unfold orOne; destruct (Z.eqb_spec vb 0); lia).
  assert (Oc : 1 <= orOne vc <= 9) by (unfold orOne; destruct (Z.eqb_spec vc 0); lia).
  rewrite loop_path; [|discriminate|].
  - unfold loopValue. cbn [numeralLoop].
    rewrite (numeralStep_digit _ a va Ha).
    rewrite (numeralStep_small _ c_qian 1000) by (reflexivity || lia).
    cbn [result section number].
    rewrite (numeralStep_digit _ b vb Hb).
    rewrite (numeralStep_small _ c_bai 100) by (reflexivity || lia).
    cbn [result section number].
    rewrite (numeralStep_digit _ c vc Hc).
    rewrite (numeralStep_small _ c_shi 10) by (reflexivity || lia).
    cbn [result section number].
    rewrite (numeralStep_digit _ d vd Hd).
    cbn [result section number].
    rewrite (fmul_small (orOne va) 1000) by (pow53; lia).
    rewrite (fmul_small (orOne vb) 100) by (pow53; lia).
    rewrite (fmul_small (orOne vc) 10) by (pow53; lia).
    rewrite (fadd_small 0 (orOne va * 1000)) by (pow53; lia).
    rewrite (fadd_small _ (orOne vb * 100)) by (pow53; lia).
    rewrite (fadd_small _ (orOne vc * 10)) by (pow53; lia).
    rewrite (fadd_small 0 _) by (pow53; lia).
    rewrite fadd_small by (pow53; lia).
    f_equal; lia.
  - cbn [forallb]. now rewrite (digit_not_ascii a va Ha).
Qed.

Lemma normalizer_four_places_witness :
  chineseNumeralToNumber (js "九千八百七十六") = Some 9876.
Proof.
  exact (normalizer_four_places c_jiu c_ba c_qi c_liu 9 8 7 6
           eq_refl eq_refl eq_refl eq_refl).
Defined.



(** ** The shape of the segmentation *)

(** X8.  The segmenter opens one chapter per heading line: the titles
    of its chapters are the titles of the heading lines, in order, so
    there are as many chapters as heading lines. *)
Theorem segment_titles (lines : list jsstring) :
  map title (segment lines) = map titleOfLine (filter isHeading lines)
  /\ length (segment lines) = length (filter isHeading lines).
Proof.
  assert (H : map title (segment lines)
              = map titleOfLine (filter isHeading lines))
    by (unfold segment; now rewrite flush_titles_fold).
  split; [exact H|].
  rewrite <- (length_map title), H. apply length_map.
Qed.

(** The chapters saved so far ride along unchanged. *)
Lemma fold_chapters_prefix (lines : list jsstring) :
  forall pre chs cur content,
    fold_left segmentStep lines (mkSeg (pre ++ chs) cur content)
    = let st := fold_left segmentStep lines (mkSeg chs cur content) in
      mkSeg (pre ++ chapters st) (currentChapter st) (currentContent st).
Proof.
  induction lines as [|l ls IH]; intros pre chs cur content; [reflexivity|].
  cbn [fold_left].
  assert (Hstep : segmentStep (mkSeg (pre ++ chs) cur content) l
                  = let st := segmentStep (mkSeg chs cur content) l in
                    mkSeg (pre ++ chapters st) (currentChapter st)
                          (currentContent st)).
  { unfold segmentStep, flush. cbn [currentChapter chapters currentContent].
    destruct (headingMatch l) as [[chineseNum g2]|].
    - destruct (truthy cur); cbn [chapters currentChapter currentContent];
        now rewrite ?app_assoc.
    - now destruct (truthy cur). }
  rewrite Hstep. cbn zeta.
  destruct (segmentStep (mkSeg chs cur content) l) as [chs' cur' content'].
  cbn [chapters currentChapter currentContent]. apply IH.
Qed.

Lemma flush_prefix (pre chs : list chapter) (cur : option jsstring)
  (content : list jsstring) :
  flush (mkSeg (pre ++ chs) cur content) = pre ++ flush (mkSeg chs cur content).
Proof.
  unfold flush. cbn [currentChapter chapters currentContent].
  destruct (truthy cur); [now rewrite app_assoc | reflexivity].
Qed.

(** X9.  The first chapter of a text that starts with a heading has the
    title of the heading and, as body, the lines up to the next heading,
    joined and trimmed (the placeholder when nothing is left); the other
    chapters are those of the text from the next heading on. *)
Theorem segment_first_chapter (h : jsstring) (body rest : list jsstring) :
  isHeading h = true ->
  (forall l, In l body -> headingMatch l = None) ->
  (forall l r, rest = l :: r -> isHeading l = true) ->
  segment (h :: body ++ rest)
  = mkChapter (titleOfLine h) (chapterBody body) :: segment rest.
Proof.
  intros Hh Hbody Hrest.
  pose proof (titleOfLine_nonempty h Hh) as Hne.
  unfold isHeading in Hh.
  destruct (headingMatch h) as [[chineseNum g2]|] eqn:E; [|discriminate].
  unfold segment. cbn [fold_left].
  rewrite (segmentStep_heading _ h chineseNum g2 E).
  change (flush (mkSeg [] None [])) with (@nil chapter).
  rewrite fold_left_app, fold_inside by (auto; now apply no_heading_In).
  cbn [app]. destruct rest as [|l r].
  - cbn [fold_left]. unfold flush. cbn [currentChapter chapters currentContent].
    now rewrite truthy_nonempty.
  - specialize (Hrest l r eq_refl). unfold isHeading in Hrest.
    destruct (headingMatch l) as [[num2 g2']|] eqn:E2; [|discriminate].
    cbn [fold_left]. rewrite !(segmentStep_heading _ l num2 g2' E2).
    unfold flush at 2. cbn [currentChapter chapters currentContent].
    rewrite truthy_nonempty by assumption.
    change (flush (mkSeg [] None [])) with (@nil chapter).
    change ([] ++ [mkChapter (titleOfLine h) (chapterBody body)])
      with ([mkChapter (titleOfLine h) (chapterBody body)] ++ []).
    rewrite fold_chapters_prefix. cbn zeta.
    destruct (fold_left segmentStep r (mkSeg [] (Some (titleOfLine l)) []))
      as [chs' cur' content'].
    cbn [chapters currentChapter currentContent]. now rewrite flush_prefix.
Qed.

Lemma segment_first_chapter_witness :
  segment (js "第一章 开始" :: [js "你好"; []] ++ [js "第二章"; js "世界"])
  = mkChapter (titleOfLine (js "第一章 开始")) (chapterBody [js "你好"; []])
      :: segment [js "第二章"; js "世界"].
Proof.
  apply segment_first_chapter.
  - reflexivity.
  - apply no_heading_In. reflexivity.
  - intros l r H. inversion H. reflexivity.
Defined.

Lemma trimEnd_all_space (s : jsstring) :
  forallb isSpace s = true -> trimEnd s = [].
Proof.
  induction s as [|c r IH]; [reflexivity|].
  cbn [forallb trimEnd]. intros H. apply andb_prop in H as [Hc Hr].
  now rewrite IH, Hc.
Qed.

Lemma trim_all_space (s : jsstring) : forallb isSpace s = true -> trim s = [].
Proof.
  intros H. unfold trim, trimStart. apply trimEnd_all_space.
  apply forallb_forall. apply Forall_forall, dropWhile_Forall, Forall_forall.
  now apply forallb_forall.
Qed.

Lemma join_all_space (ls : list jsstring) :
  forallb (forallb isSpace) ls = true -> forallb isSpace (join ls) = true.
Proof.
  induction ls as [|l r IH]; [reflexivity|].
  cbn [forallb]. intros H. apply andb_prop in H as [Hl Hr].
  destruct r as [|l' r']; [exact Hl|].
  rewrite join_cons by discriminate. rewrite forallb_app, Hl.
  cbn [forallb andb]. change (isSpace NL) with true. now rewrite IH.
Qed.

(** X10.  A chapter whose lines are all blank gets the placeholder
    body, which counts as 8 words. *)
Theorem blank_chapter_gets_placeholder (t : jsstring) (content : list jsstring) :
  forallb (forallb isSpace) content = true ->
  chapterBody content = placeholder
  /\ wordsOf (mkChapter t (chapterBody content)) = 8.
Proof.
  intros H. assert (Hb : chapterBody content = placeholder).
  { unfold chapterBody. now rewrite trim_all_space by now apply join_all_space. }
  split; [exact Hb|]. now rewrite Hb.
Qed.

Lemma blank_chapter_gets_placeholder_witness :
  chapterBody [[]; js "  "; [9]] = placeholder
  /\ wordsOf (mkChapter (js "第1章") (chapterBody [[]; js "  "; [9]])) = 8.
Proof. apply blank_chapter_gets_placeholder. reflexivity. Defined.

(** X11.  Every chapter splitIntoChapters returns has a title of the
    form 第, decimal digits, 章, with an optional suffix after one space,
    from which its number is read back, and a body that is trimmed and
    not empty.  The title is never the raw heading line: the normaliser
    gives a number for every heading. *)
Theorem chapters_are_canonical (content : jsstring) (c : chapter) :
  In c (splitIntoChapters content) ->
  (exists n sfx, 0 <= n /\ title c = canonical n sfx
                 /\ chapterNumber (title c) = Some n
                 /\ trim sfx = sfx)
  /\ trim (data c) = data c /\ data c <> [].
Proof.
  intros Hc. pose proof (splitIntoChapters_wf content) as H.
  rewrite Forall_forall in H.
  destruct (H c Hc) as ((n & sfx & Hn & Hp & Hg & Ht) & Hd).
  split; [|exact Hd]. exists n, sfx. rewrite Ht.
  split; [apply Hn|]. split; [reflexivity|].
  split; [now apply canonical_chapterNumber | apply Hg].
Qed.

Lemma chapters_are_canonical_witness :
  let c := mkChapter (js "第12章 风起") (js "正文") in
  (exists n sfx, 0 <= n /\ title c = canonical n sfx
                 /\ chapterNumber (title c) = Some n /\ trim sfx = sfx)
  /\ trim (data c) = data c /\ data c <> [].
Proof.
  cbv zeta.
  apply (chapters_are_canonical (js "第十二章   风起 " ++ NL :: js " 正文 ")).
  left. reflexivity.
Defined.

(** X12.  No heading falls back to its raw line: the numeral of a
    heading line always has a value, a number that is not negative, and
    the title is 第, the number as a template literal prints it, 章 and
    the suffix.  When the numeral has at most 15 characters the number
    is below 2^53 and is read back from the title. *)
Theorem heading_numeral_has_value (line chineseNum : jsstring)
  (g2 : option jsstring) :
  headingMatch line = Some (chineseNum, g2) ->
  exists arabic,
    chineseNumeralToNumber chineseNum = Some arabic /\ isNumber arabic
    /\ headingTitle line chineseNum g2 = canonical arabic (suffixOf g2)
    /\ ((length chineseNum <= 15)%nat ->
        0 <= arabic < 2 ^ 53
        /\ chapterNumber (headingTitle line chineseNum g2) = Some arabic).
Proof.
  intros H. destruct (headingTitle_value _ _ _ H) as (n & Hn & Hnum & _ & Ht).
  exists n. split; [assumption|]. split; [assumption|]. split; [assumption|].
  intros Hlen. pose proof (chineseNumeralToNumber_range chineseNum n Hlen Hn) as Hr.
  split; [assumption|]. rewrite Ht.
  now apply canonical_chapterNumber, plain_small.
Qed.

Lemma heading_numeral_has_value_witness :
  exists arabic,
    chineseNumeralToNumber (js "两百零三") = Some arabic /\ isNumber arabic
    /\ headingTitle (js "第两百零三章  归来") (js "两百零三") (Some (js "归来"))
       = canonical arabic (suffixOf (Some (js "归来"))).
Proof.
  destruct (heading_numeral_has_value (js "第两百零三章  归来") (js "两百零三")
              (Some (js "归来")) eq_refl) as (n & Hn & Hnum & Ht & _).
  exists n. split; [assumption|]. split; assumption.
Defined.

(** ** Duplicate removal as a whole *)

(** X13.  Removing duplicates twice is removing them once; the chapters
    splitIntoChapters returns are left as they are. *)
Theorem removeDuplicateChapters_idempotent :
  (forall chs, removeDuplicateChapters (removeDuplicateChapters chs)
               = removeDuplicateChapters chs)
  /\ (forall content, removeDuplicateChapters (splitIntoChapters content)
                      = splitIntoChapters content).
Proof.
  split; [exact removeDuplicateChapters_idem|].
  intros content. apply removeDuplicateChapters_idem.
Qed.

Lemma strict_filter_short (n : Z) (l : list chapter) :
  StronglySorted Z.lt (map keyOf l) ->
  (length (filter (hasNum n) l) <= 1)%nat.
Proof.
  induction l as [|a r IH]; intros Hs; [simpl; lia|].
  cbn [map] in Hs. inversion Hs as [|? ? Hs' Hall]; subst.
  cbn [filter]. destruct (hasNum n a) eqn:Ea; [|now apply IH].
  rewrite filter_none; [simpl; lia|].
  intros x Hx. destruct (hasNum n x) eqn:Ex; [|reflexivity].
  apply hasNum_keyOf in Ea, Ex. rewrite Forall_forall in Hall.
  specialize (Hall (keyOf x) (in_map keyOf _ _ Hx)). lia.
Qed.

Lemma StronglySorted_lt_le (l : list Z) :
  StronglySorted Z.lt l -> StronglySorted Z.le l.
Proof.
  induction 1 as [|a l Hs IH Hall]; constructor; [assumption|].
  eapply Forall_impl; [|exact Hall]. intros; lia.
Qed.

(** X14.  A list of numbered chapters in strictly ascending order of
    number comes back unchanged. *)
Theorem ascending_chapters_unchanged (chs : list chapter) :
  Forall numbered chs ->
  StronglySorted Z.lt (map keyOf chs) ->
  removeDuplicateChapters chs = chs.
Proof.
  intros Hn Hs. apply removeDuplicateChapters_fixed;
    [assumption | now apply StronglySorted_lt_le |].
  intros n. pose proof (strict_filter_short n chs Hs) as Hlen.
  destruct (filter (hasNum n) chs) as [|a [|b r]]; try reflexivity.
  simpl in Hlen. lia.
Qed.

Lemma ascending_chapters_unchanged_witness :
  let chs := [mkChapter (js "第1章") (js "你好"); mkChapter (js "第3章") (js "你好");
              mkChapter (js "第10章 终") (js "你好")] in
  removeDuplicateChapters chs = chs.
Proof.
  cbv zeta. apply ascending_chapters_unchanged.
  - repeat constructor; discriminate.
  - repeat constructor.
Defined.

Lemma fingerprints_snoc (kept : list chapter) (c : chapter) :
  fingerprints (kept ++ [c])
  = fingerprints kept
      ++ (if isEmpty (fingerprint (data c)) then [] else [fingerprint (data c)]).
Proof.
  unfold fingerprints. rewrite map_app, filter_app. cbn [map filter].
  now destruct (isEmpty (fingerprint (data c))).
Qed.

Lemma not_duplicate_fresh (kept : list chapter) (c : chapter) :
  isDuplicate kept c = false ->
  fingerprint (data c) <> [] ->
  ~ In (fingerprint (data c)) (fingerprints kept).
Proof.
  intros Hd Hne Hin. unfold fingerprints in Hin.
  apply filter_In in Hin as [Hin _]. apply in_map_iff in Hin as (k & Hk & Hin).
  assert (isDuplicate kept c = true); [|congruence].
  apply isDuplicate_spec. split; [assumption|]. now exists k.
Qed.

Lemma clean_NoDup (extra : list chapter) :
  forall kept, clean kept extra -> NoDup (fingerprints kept) ->
               NoDup (fingerprints (kept ++ extra)).
Proof.
  induction extra as [|c e IH]; intros kept Hc Hn.
  - now rewrite app_nil_r.
  - destruct Hc as [Hd Hc].
    change (kept ++ c :: e) with (kept ++ [c] ++ e). rewrite app_assoc.
    apply IH; [assumption|]. rewrite fingerprints_snoc.
    destruct (isEmpty (fingerprint (data c))) eqn:E; [now rewrite app_nil_r|].
    apply isEmpty_false in E.
    apply NoDup_app; [assumption | repeat constructor; intros [] |].
    intros f Hf [<-|[]]. now apply (not_duplicate_fresh kept c).
Qed.

Lemma dedupGroup_NoDup (g : list chapter) : NoDup (fingerprints (dedupGroup g)).
Proof.
  destruct g as [|c0 rest]; [constructor|].
  destruct (dedupGroup_extra c0 rest) as (e & -> & Hc & _).
  apply (clean_NoDup e [c0] Hc). unfold fingerprints. cbn [map filter].
  destruct (negb (isEmpty (fingerprint (data c0)))); repeat constructor.
  intros [].
Qed.

Lemma keptLoop_represents (rest : list chapter) :
  forall kept c, In c (kept ++ rest) ->
                 exists k, In k (keptLoop kept rest)
                           /\ fingerprint (data k) = fingerprint (data c).
Proof.
  induction rest as [|x rest IH]; intros kept c Hc.
  - rewrite app_nil_r in Hc. now exists c.
  - cbn [keptLoop]. destruct (isDuplicate kept x) eqn:E.
    + apply in_app_or in Hc as [Hc|[<-|Hc]].
      * apply IH, in_or_app. now left.
      * apply isDuplicate_spec in E as (_ & k & Hk & Hfp).
        destruct (IH kept k) as (k' & Hk' & Hfp');
          [apply in_or_app; now left|].
        exists k'. split; [assumption | congruence].
      * apply IH, in_or_app. now right.
    + apply IH. rewrite <- app_assoc. exact Hc.
Qed.

Lemma dedupGroup_represents (g : list chapter) (c : chapter) :
  In c g -> exists k, In k (dedupGroup g)
                      /\ fingerprint (data k) = fingerprint (data c).
Proof.
  destruct g as [|c0 rest]; [intros []|]. rewrite dedupGroup_cons.
  intros Hc. now apply keptLoop_represents.
Qed.

(** X15.  Under every number, the chapters kept have distinct
    fingerprints (the empty one apart), and every input chapter of that
    number has its fingerprint on a chapter kept under the same number:
    only duplicates are lost. *)
Theorem only_duplicates_are_lost (chs : list chapter) (n : Z) :
  NoDup (fingerprints (filter (hasNum n) (removeDuplicateChapters chs)))
  /\ forall c, In c chs -> chapterNumber (title c) = Some n ->
               exists k, In k (removeDuplicateChapters chs)
                         /\ chapterNumber (title k) = Some n
                         /\ fingerprint (data k) = fingerprint (data c).
Proof.
  destruct (removeDuplicateChapters_spec chs) as (_ & _ & Hf & _).
  rewrite Hf. split; [apply dedupGroup_NoDup|].
  intros c Hc Hn.
  destruct (dedupGroup_represents (filter (hasNum n) chs) c) as (k & Hk & Hfp).
  { apply filter_In. split; [assumption | now apply hasNum_true]. }
  rewrite <- Hf in Hk. apply filter_In in Hk as [Hk Hkn].
  exists k. split; [assumption|]. split; [now apply hasNum_true | assumption].
Qed.

Lemma only_duplicates_are_lost_witness :
  let a := mkChapter (js "第3章") (js "天地玄黄宇宙洪荒") in
  let b := mkChapter (js "第3章 重复") (js "天地玄黄宇，另一个来源") in
  exists k, In k (removeDuplicateChapters [a; b])
            /\ chapterNumber (title k) = Some 3
            /\ fingerprint (data k) = fingerprint (data b).
Proof.
  cbv zeta.
  apply (proj2 (only_duplicates_are_lost
                  [mkChapter (js "第3章") (js "天地玄黄宇宙洪荒");
                   mkChapter (js "第3章 重复") (js "天地玄黄宇，另一个来源")] 3)).
  - right. left. reflexivity.
  - reflexivity.
Defined.

Lemma firstn_app_long {A} (n : nat) (l1 l2 : list A) :
  (n <= length l1)%nat -> firstn n (l1 ++ l2) = firstn n l1.
Proof.
  intros H. rewrite firstn_app.
  replace (n - length l1)%nat with 0%nat by lia. cbn. apply app_nil_r.
Qed.

(** X16.  A fingerprint has at most 5 characters, all of them CJK
    ideographs or ASCII letters or digits; it is the same for bodies that
    differ in other characters only; and it is decided by the start of
    the body: two chapters of a group whose bodies start with the same
    5 such characters or more count as duplicates, whatever follows. *)
Theorem fingerprint_properties :
  (forall text, (length (fingerprint text) <= 5)%nat
                /\ forallb isFingerprintChar (fingerprint text) = true)
  /\ (forall a b, filter isFingerprintChar a = filter isFingerprintChar b ->
                  fingerprint a = fingerprint b)
  /\ (forall p x, (5 <= length (filter isFingerprintChar p))%nat ->
                  fingerprint (p ++ x) = fingerprint p)
  /\ (forall ta tb p x y,
         (5 <= length (filter isFingerprintChar p))%nat ->
         dedupGroup [mkChapter ta (p ++ x); mkChapter tb (p ++ y)]
         = [mkChapter ta (p ++ x)]).
Proof.
  assert (Hprefix : forall p x, (5 <= length (filter isFingerprintChar p))%nat ->
                                fingerprint (p ++ x) = fingerprint p).
  { intros p x H. unfold fingerprint, getFirstNChars.
    rewrite filter_app. now apply firstn_app_long. }
  split; [|split; [|split; [exact Hprefix|]]].
  - intros text. unfold fingerprint, getFirstNChars. split.
    + apply firstn_le_length.
    + apply forallb_forall. intros c Hc.
      apply (In_nth_error) in Hc as (i & Hi).
      assert (Hin : In c (filter isFingerprintChar text)).
      { rewrite <- (firstn_skipn 5). apply in_or_app. left.
        eapply nth_error_In; exact Hi. }
      now apply filter_In in Hin.
  - intros a b H. unfold fingerprint, getFirstNChars. now rewrite H.
  - intros ta tb p x y H.
    cbn [dedupGroup keptLoop]. unfold isDuplicate. cbn [existsb data].
    rewrite !Hprefix by assumption.
    assert (Hne : isEmpty (fingerprint p) = false).
    { unfold fingerprint, getFirstNChars.
      destruct (filter isFingerprintChar p); [simpl in H; lia | reflexivity]. }
    rewrite Hne. cbn [negb andb orb].
    assert (jsstring_eqb (fingerprint p) (fingerprint p) = true) as ->
      by now apply jsstring_eqb_eq.
    reflexivity.
Qed.

Lemma fingerprint_properties_witness :
  dedupGroup [mkChapter (js "第3章") (js "天地玄黄，宇宙洪荒" ++ js "。日月盈昃");
              mkChapter (js "第3章") (js "天地玄黄，宇宙洪荒" ++ js "（来源二）")]
  = [mkChapter (js "第3章") (js "天地玄黄，宇宙洪荒" ++ js "。日月盈昃")].
Proof.
  apply fingerprint_properties. vm_compute. lia.
Defined.

(** ** The word count *)

Lemma wordsOf_nonneg (c : chapter) : 0 <= wordsOf c.
Proof. unfold wordsOf. lia. Qed.

Lemma countTotalWords_acc (chs : list chapter) (a : Z) :
  fold_left (fun totalWords ch =>
               totalWords
               + Z.of_nat (length (filter (fun c => negb (isSpace c)) (data ch))))
            chs a
  = a + sumWords chs.
Proof.
  revert a. induction chs as [|c chs IH]; intros a; cbn [fold_left sumWords].
  - lia.
  - rewrite IH. unfold wordsOf. lia.
Qed.

Lemma countTotalWords_sum (chs : list chapter) :
  countTotalWords chs = sumWords chs.
Proof. unfold countTotalWords. now rewrite countTotalWords_acc. Qed.

Lemma sumWords_app (a b : list chapter) :
  sumWords (a ++ b) = sumWords a + sumWords b.
Proof. induction a as [|c a IH]; cbn [app sumWords]; lia. Qed.

Lemma sumWords_nonneg (chs : list chapter) : 0 <= sumWords chs.
Proof.
  induction chs as [|c chs IH]; cbn [sumWords]; [lia|].
  pose proof (wordsOf_nonneg c). lia.
Qed.

Lemma sumWords_perm (a b : list chapter) :
  Permutation a b -> sumWords a = sumWords b.
Proof. induction 1; cbn [sumWords]; lia. Qed.

Lemma keptLoop_sum (rest : list chapter) :
  forall kept, sumWords (keptLoop kept rest) <= sumWords kept + sumWords rest.
Proof.
  induction rest as [|c rest IH]; intros kept; cbn [keptLoop sumWords]; [lia|].
  pose proof (wordsOf_nonneg c).
  destruct (isDuplicate kept c).
  - specialize (IH kept). lia.
  - specialize (IH (kept ++ [c])). rewrite sumWords_app in IH.
    cbn [sumWords] in IH. lia.
Qed.

Lemma dedupGroup_sum (g : list chapter) : sumWords (dedupGroup g) <= sumWords g.
Proof.
  destruct g as [|c0 rest]; [reflexivity|]. rewrite dedupGroup_cons.
  pose proof (keptLoop_sum rest [c0]). cbn [sumWords] in *. lia.
Qed.

Lemma uniqueOf_sum (m : chapterMapT) :
  sumWords (uniqueOf m) <= sumWords (flat_map snd m).
Proof.
  induction m as [|[k l] m IH]; [reflexivity|].
  unfold uniqueOf in *. cbn [flat_map snd]. rewrite !sumWords_app.
  pose proof (dedupGroup_sum l). lia.
Qed.

Lemma mapPush_sum (num : Z) (ch : chapter) (m : chapterMapT) :
  sumWords (flat_map snd (mapPush num ch m))
  = sumWords (flat_map snd m) + wordsOf ch.
Proof.
  induction m as [|[k l] m IH]; [cbn; lia|].
  cbn [mapPush]. destruct (k =? num); cbn [flat_map snd];
    rewrite !sumWords_app; [cbn [sumWords]; lia | rewrite IH; lia].
Qed.

Lemma groupByNumber_sum (chs : list chapter) :
  sumWords (flat_map snd (groupByNumber chs)) <= sumWords chs.
Proof.
  induction chs as [|c chs IH] using rev_ind; [reflexivity|].
  rewrite groupByNumber_snoc, sumWords_app. cbn [sumWords]. unfold groupStep.
  pose proof (wordsOf_nonneg c).
  destruct (chapterNumber (title c)); [rewrite mapPush_sum|]; lia.
Qed.

(** X17.  The word count is the sum, over the chapters, of the
    characters of the body that are not white space: it adds up over
    concatenation, does not depend on the order of the chapters, and
    removing duplicates never raises it. *)
Theorem countTotalWords_properties :
  (forall a b, countTotalWords (a ++ b) = countTotalWords a + countTotalWords b)
  /\ (forall t body, countTotalWords [mkChapter t body]
                     = Z.of_nat (length (filter (fun ch => negb (isSpace ch)) body)))
  /\ (forall a b, Permutation a b -> countTotalWords a = countTotalWords b)
  /\ (forall chs, 0 <= countTotalWords (removeDuplicateChapters chs)
                  <= countTotalWords chs).
Proof.
  split; [|split; [|split]].
  - intros a b. rewrite !countTotalWords_sum. apply sumWords_app.
  - intros t body. rewrite countTotalWords_sum. cbn [sumWords]. unfold wordsOf.
    cbn [data]. lia.
  - intros a b H. rewrite !countTotalWords_sum. now apply sumWords_perm.
  - intros chs. rewrite !countTotalWords_sum. split; [apply sumWords_nonneg|].
    rewrite removeDuplicateChapters_unfold.
    rewrite (sumWords_perm _ _ (sortBy_perm _ _)).
    pose proof (uniqueOf_sum (groupByNumber chs)).
    pose proof (groupByNumber_sum chs). lia.
Qed.

(** ** Rendering a body as paragraphs *)

Lemma filter_dropWhile_space (l : jsstring) :
  filter (fun c => negb (isSpace c)) (dropWhile isSpace l)
  = filter (fun c => negb (isSpace c)) l.
Proof.
  induction l as [|c r IH]; [reflexivity|].
  cbn [dropWhile filter]. destruct (isSpace c) eqn:E; cbn [negb]; [exact IH|].
  cbn [filter]. now rewrite E.
Qed.

Lemma filter_trimEnd_space (l : jsstring) :
  filter (fun c => negb (isSpace c)) (trimEnd l)
  = filter (fun c => negb (isSpace c)) l.
Proof.
  induction l as [|c r IH]; [reflexivity|].
  cbn [trimEnd filter]. rewrite <- IH.
  destruct (trimEnd r) as [|d r'].
  - destruct (isSpace c) eqn:E; cbn [filter negb]; [reflexivity|].
    now rewrite E.
  - cbn [filter]. reflexivity.
Qed.

Lemma filter_trim_space (l : jsstring) :
  filter (fun c => negb (isSpace c)) (trim l)
  = filter (fun c => negb (isSpace c)) l.
Proof.
  unfold trim, trimStart. now rewrite filter_trimEnd_space, filter_dropWhile_space.
Qed.

Lemma filter_split_space (text : jsstring) :
  concat (map (filter (fun c => negb (isSpace c))) (split text))
  = filter (fun c => negb (isSpace c)) text.
Proof.
  induction text as [|c r IH]; [reflexivity|].
  cbn [split]. destruct (Z.eqb_spec c NL) as [->|Hc].
  - cbn [map concat filter app]. exact IH.
  - destruct (split r) as [|l ls] eqn:E; [now apply split_nonempty in E|].
    cbn [map concat filter] in *. rewrite <- IH.
    now destruct (negb (isSpace c)).
Qed.

Lemma paragraphs_text (lines : list jsstring) :
  concat (map (filter (fun c => negb (isSpace c)))
              (filter (fun line => negb (isEmpty line)) (map trim lines)))
  = concat (map (filter (fun c => negb (isSpace c))) lines).
Proof.
  induction lines as [|l ls IH]; [reflexivity|].
  cbn [map filter concat]. rewrite <- IH, <- (filter_trim_space l).
  now destruct (trim l).
Qed.

Lemma paragraphs_wf (text : jsstring) :
  Forall (fun p => p <> [] /\ trim p = p /\ Forall (fun c => c <> NL) p)
         (paragraphs text).
Proof.
  apply Forall_forall. intros p Hp. unfold paragraphs in Hp.
  apply filter_In in Hp as [Hin Hne]. apply in_map_iff in Hin as (l & <- & Hl).
  split; [now apply isEmpty_false, negb_true_iff|].
  split; [apply trim_idem|]. apply trim_Forall.
  pose proof (split_lines_no_newline text) as H. rewrite Forall_forall in H.
  now apply H.
Qed.

Lemma wrapParagraph_no_newline (p : jsstring) :
  Forall (fun c => c <> NL) p -> Forall (fun c => c <> NL) (wrapParagraph p).
Proof.
  intros H. unfold wrapParagraph. apply Forall_app. split.
  - repeat constructor; discriminate.
  - apply Forall_app. split; [assumption | repeat constructor; discriminate].
Qed.

(** X18.  The HTML of a body has one line per line of the body that is
    not blank, in order: that line, trimmed, between the paragraph tags.
    Rendering loses no character but white space; the HTML is empty
    exactly when the body has no other character. *)
Theorem convertToHtml_paragraphs (text : jsstring) :
  concat (map (filter (fun c => negb (isSpace c))) (paragraphs text))
  = filter (fun c => negb (isSpace c)) text
  /\ split (convertToHtml text)
     = match paragraphs text with
       | [] => [[]]
       | ps => map wrapParagraph ps
       end
  /\ (convertToHtml text = [] <-> forallb isSpace text = true).
Proof.
  assert (Hkeep : concat (map (filter (fun c => negb (isSpace c))) (paragraphs text))
                  = filter (fun c => negb (isSpace c)) text)
    by (unfold paragraphs; now rewrite paragraphs_text, filter_split_space).
  split; [exact Hkeep|]. split.
  - unfold convertToHtml. rewrite split_join_lines.
    + now destruct (paragraphs text).
    + apply Forall_forall. intros h Hh. apply in_map_iff in Hh as (p & <- & Hp).
      apply wrapParagraph_no_newline.
      pose proof (paragraphs_wf text) as H. rewrite Forall_forall in H.
      now apply H.
  - assert (Hsp : forallb isSpace text = true
                  <-> filter (fun c => negb (isSpace c)) text = []).
    { clear. induction text as [|c r IH]; [tauto|].
      cbn [forallb filter]. destruct (isSpace c); cbn [negb andb].
      - exact IH.
      - split; discriminate. }
    rewrite Hsp, <- Hkeep. unfold convertToHtml.
    destruct (paragraphs text) as [|p ps] eqn:E.
    + tauto.
    + split.
      * destruct ps; cbn [map join]; unfold wrapParagraph at 1; discriminate.
      * intros H. exfalso. cbn [map concat] in H.
        apply app_eq_nil in H as [Hp _].
        pose proof (paragraphs_wf text) as Hwf. rewrite E in Hwf.
        inversion Hwf as [|? ? (Hne & Ht & _) _]; subst.
        destruct p as [|c r]; [contradiction|].
        unfold trim, trimStart in Ht. pose proof (trim_head (c :: r) c r Ht) as Hc.
        cbn [filter] in Hp. rewrite Hc in Hp. discriminate.
Qed.

(** X19.  The body of every chapter splitIntoChapters returns renders
    to at least one paragraph. *)
Theorem chapters_render_to_paragraphs (content : jsstring) (c : chapter) :
  In c (splitIntoChapters content) ->
  paragraphs (data c) <> [] /\ convertToHtml (data c) <> [].
Proof.
  intros Hc. pose proof (splitIntoChapters_wf content) as H.
  rewrite Forall_forall in H. destruct (H c Hc) as (_ & Ht & Hne).
  destruct (convertToHtml_paragraphs (data c)) as (Hkeep & _ & Hempty).
  assert (Hns : filter (fun ch => negb (isSpace ch)) (data c) <> []).
  { destruct (data c) as [|x r] eqn:E; [contradiction|].
    pose proof (trim_head (x :: r) x r Ht) as Hx.
    cbn [filter]. rewrite Hx. discriminate. }
  split.
  - intros Hp. rewrite Hp in Hkeep. cbn in Hkeep. congruence.
  - intros Hh. apply Hempty in Hh. apply Hns. clear -Hh.
    induction (data c) as [|x r IH]; [reflexivity|].
    cbn [forallb] in Hh. apply andb_prop in Hh as [Hx Hr].
    cbn [filter]. rewrite Hx. now apply IH.
Qed.

Lemma chapters_render_to_paragraphs_witness :
  paragraphs (js "你好") <> [] /\ convertToHtml (js "你好") <> [].
Proof.
  apply (chapters_render_to_paragraphs (js "第一章" ++ NL :: js " 你好 ")
           (mkChapter (js "第1章") (js "你好"))).
  left. reflexivity.
Defined.

(** ** The conversion and its options *)

(** X20.  A conversion that returns has all its required options, read
    an existing file, found at least one chapter and was packaged; it
    reports the output path given, the number of chapters found and
    their word count. *)
Theorem conversion_success
  (fs : jsstring -> option jsstring)
  (packageEpub : convertOptions -> list chapter -> Z -> bool)
  (self : converterOptions) (options : convertOptions) (r : conversionResult) :
  convertTxtToEpub fs packageEpub self options = Returned r ->
  exists input content,
    inputFile options = Some input /\ input <> []
    /\ given (bookTitle options) && given (author options)
       && given (maker options) = true
    /\ fs input = Some content
    /\ let chs := splitIntoChapters
                    (processContent (effectiveOptions self (optAdKeywords options))
                                    content) in
       chs <> []
       /\ packageEpub options chs (countTotalWords chs) = true
       /\ outputFile options = Some (resOutputFile r)
       /\ resChapters r = Z.of_nat (length chs) /\ 1 <= resChapters r
       /\ resTotalWords r = countTotalWords chs.
Proof.
  unfold convertTxtToEpub, processTextFile.
  destruct (inputFile options) as [input|] eqn:Ei; [|discriminate].
  destruct (outputFile options) as [output|] eqn:Eo; [|discriminate].
  destruct (given (Some input) && given (Some output)
            && given (bookTitle options) && given (author options)
            && given (maker options)) eqn:G; [|discriminate].
  apply andb_prop in G as [G Gm]. apply andb_prop in G as [G Ga].
  apply andb_prop in G as [G Gt]. apply andb_prop in G as [Gi Go].
  destruct (fs input) as [content|] eqn:Ef; [|discriminate].
  set (chs := splitIntoChapters _).
  destruct chs as [|c0 rest] eqn:Ec; cbn [length Nat.eqb]; [discriminate|].
  destruct (packageEpub options (c0 :: rest) (countTotalWords (c0 :: rest))) eqn:Ep;
    [|discriminate].
  intros H. inversion H; subst r; clear H.
  exists input, content. split; [reflexivity|].
  split; [destruct input; discriminate|].
  split; [now rewrite Gt, Ga, Gm|]. split; [exact Ef|].
  cbn zeta. fold chs. rewrite Ec. cbn [resOutputFile resChapters resTotalWords].
  split; [discriminate|]. split; [assumption|]. split; [reflexivity|].
  split; [reflexivity|]. split; [cbn [length]; lia | reflexivity].
Qed.

Lemma conversion_success_witness :
  let fs := fun _ : jsstring => Some (js "第一章" ++ NL :: js "你好") in
  let options := mkConvert (Some (js "a.txt")) (Some (js "a.epub"))
                   (Some (js "t")) (Some (js "a")) (Some (js "m")) None in
  exists input content,
    inputFile options = Some input /\ input <> []
    /\ given (bookTitle options) && given (author options)
       && given (maker options) = true
    /\ fs input = Some content
    /\ let chs := splitIntoChapters
                    (processContent (effectiveOptions (mkOptions false [])
                                       (optAdKeywords options)) content) in
       chs <> []
       /\ true = true
       /\ outputFile options = Some (js "a.epub")
       /\ 1 = Z.of_nat (length chs) /\ 1 <= 1
       /\ 2 = countTotalWords chs.
Proof.
  cbv zeta.
  exact (conversion_success
           (fun _ => Some (js "第一章" ++ NL :: js "你好")) (fun _ _ _ => true)
           (mkOptions false [])
           (mkConvert (Some (js "a.txt")) (Some (js "a.epub"))
              (Some (js "t")) (Some (js "a")) (Some (js "m")) None)
           (mkResult (js "a.epub") 1 2) eq_refl).
Defined.

(** X21.  The errors come in a fixed order: a missing or empty required
    option is reported before the file is looked at, and a missing file
    before any chapter is looked for. *)
Theorem conversion_errors
  (fs : jsstring -> option jsstring)
  (packageEpub : convertOptions -> list chapter -> Z -> bool)
  (self : converterOptions) (options : convertOptions) :
  (given (inputFile options) && given (outputFile options)
     && given (bookTitle options) && given (author options)
     && given (maker options) = false ->
   convertTxtToEpub fs packageEpub self options = Thrown MissingParameters)
  /\ (forall input,
        given (inputFile options) && given (outputFile options)
          && given (bookTitle options) && given (author options)
          && given (maker options) = true ->
        inputFile options = Some input -> fs input = None ->
        convertTxtToEpub fs packageEpub self options
        = Thrown (FileNotFound input)).
Proof.
  unfold convertTxtToEpub, processTextFile. split.
  - intros H. destruct (inputFile options) as [input|]; [|reflexivity].
    destruct (outputFile options) as [output|]; [|reflexivity].
    now rewrite H.
  - intros input H Hi Hf. rewrite Hi in *.
    destruct (outputFile options) as [output|];
      [|destruct (given (Some input)); cbn in H; discriminate H].
    now rewrite H, Hf.
Qed.

Lemma conversion_errors_witness :
  convertTxtToEpub (fun _ => None) (fun _ _ _ => true) (mkOptions false [])
    (mkConvert (Some (js "a.txt")) (Some (js "a.epub"))
       (Some (js "t")) (Some (js "")) (Some (js "m")) None)
  = Thrown MissingParameters
  /\ convertTxtToEpub (fun _ => None) (fun _ _ _ => true) (mkOptions false [])
       (mkConvert (Some (js "a.txt")) (Some (js "a.epub"))
          (Some (js "t")) (Some (js "a")) (Some (js "m")) None)
     = Thrown (FileNotFound (js "a.txt")).
Proof.
  split.
  - now apply conversion_errors.
  - now apply conversion_errors.
Defined.



(** ** The keywords of the command line *)




(** ** Filtered lines never reach a chapter body *)

Lemma trimEnd_prefix (s : jsstring) : exists b, s = trimEnd s ++ b.
Proof.
  induction s as [|c r (b & IH)]; [now exists []|].
  cbn [trimEnd]. destruct (trimEnd r) as [|d r'].
  - destruct (isSpace c).
    + now exists (c :: r).
    + exists r. reflexivity.
  - exists b. cbn [app] in *. now f_equal.
Qed.

Lemma trim_substring (s : jsstring) : substring (trim s) s.
Proof.
  unfold substring, trim, trimStart.
  destruct (trimEnd_prefix (dropWhile isSpace s)) as (b & Hb).
  exists (takeWhile isSpace s), b.
  rewrite <- Hb. symmetry. apply takeWhile_dropWhile.
Qed.

Lemma substring_trans (k a b : jsstring) :
  substring k a -> substring a b -> substring k b.
Proof.
  intros (p1 & q1 & ->) (p2 & q2 & ->).
  exists (p2 ++ p1), (q1 ++ q2). now rewrite <- !app_assoc.
Qed.

(** A run without newline that lies in two joined parts lies in one of
    them. *)
Lemma substring_across_newline (k a b : jsstring) :
  ~ In NL k -> substring k (a ++ NL :: b) -> substring k a \/ substring k b.
Proof.
  intros Hk (pre & post & H).
  apply app_eq_app in H as (m & [[Ha Hm]|[Hp Hm]]).
  - (* a = pre ++ m, k ++ post = m ++ NL :: b *)
    symmetry in Hm. apply app_eq_app in Hm as (t & [[Hm1 Hm2]|[Hk1 Hk2]]).
    + (* m = k ++ t *)
      left. exists pre, t. now rewrite Ha, Hm1.
    + (* k = m ++ t, NL :: b = t ++ post *)
      destruct t as [|x t].
      * left. exists pre, []. rewrite app_nil_r in *. now rewrite Ha, Hk1.
      * exfalso. inversion Hk2; subst. apply Hk, in_or_app. right. now left.
  - (* pre = a ++ m, NL :: b = m ++ k ++ post *)
    destruct m as [|x m].
    + cbn [app] in Hm. destruct k as [|y k].
      * left. exists a, []. now rewrite app_nil_r.
      * exfalso. inversion Hm; subst. apply Hk. now left.
    + right. inversion Hm; subst. now exists m, post.
Qed.

Lemma substring_join (k : jsstring) (ls : list jsstring) :
  ~ In NL k -> k <> [] -> substring k (join ls) ->
  exists l, In l ls /\ substring k l.
Proof.
  intros Hk Hne. induction ls as [|l rest IH]; intros H.
  - destruct H as (pre & post & H). destruct pre, k; try discriminate.
    contradiction.
  - destruct rest as [|l' rest'].
    + exists l. split; [now left | exact H].
    + rewrite join_cons in H by discriminate.
      apply (substring_across_newline k _ _ Hk) in H as [H|H].
      * exists l. split; [now left | exact H].
      * destruct (IH H) as (x & Hx & Hs). exists x. split; [now right | exact Hs].
Qed.

(** The body of every chapter is built from lines of the text. *)
Lemma fold_bodies_from_lines (all lines : list jsstring) :
  forall st,
    incl lines all ->
    Forall (fun c => exists content, incl content all
                                     /\ data c = chapterBody content)
           (chapters st) ->
    incl (currentContent st) all ->
    Forall (fun c => exists content, incl content all
                                     /\ data c = chapterBody content)
           (flush (fold_left segmentStep lines st)).
Proof.
  assert (Hflush : forall st,
             Forall (fun c => exists content, incl content all
                                              /\ data c = chapterBody content)
                    (chapters st) ->
             incl (currentContent st) all ->
             Forall (fun c => exists content, incl content all
                                              /\ data c = chapterBody content)
                    (flush st)).
  { intros st Hc Hcur. unfold flush. destruct (truthy (currentChapter st));
      [|assumption].
    apply Forall_app. split; [assumption|]. constructor; [|constructor].
    now exists (currentContent st). }
  induction lines as [|l ls IH]; intros st Hincl Hc Hcur.
  - now apply Hflush.
  - cbn [fold_left]. apply IH.
    + intros x Hx. apply Hincl. now right.
    + unfold segmentStep. destruct (headingMatch l) as [[num g2]|].
      * cbn [chapters]. now apply Hflush.
      * now destruct (truthy (currentChapter st)).
    + unfold segmentStep. destruct (headingMatch l) as [[num g2]|].
      * cbn [currentContent]. intros x [].
      * destruct (truthy (currentChapter st)); [|assumption].
        cbn [currentContent]. apply incl_app; [assumption|].
        intros x [<-|[]]. apply Hincl. now left.
Qed.

Lemma segment_bodies_from_lines (lines : list jsstring) (c : chapter) :
  In c (segment lines) ->
  exists content, incl content lines /\ data c = chapterBody content.
Proof.
  intros Hc.
  pose proof (fold_bodies_from_lines lines lines (mkSeg [] None [])
                (incl_refl _) (Forall_nil _) (incl_nil_l _)) as H.
  rewrite Forall_forall in H. now apply H.
Qed.

(** X24.  With the filter on, the body of a chapter is the placeholder
    or holds no keyword that is free of newlines: what the filter
    removes reaches no chapter body. *)
Theorem keywords_absent_from_bodies (keywords : list jsstring)
  (content : jsstring) (c : chapter) :
  In c (splitIntoChapters (processContent (mkOptions true keywords) content)) ->
  data c = placeholder
  \/ forall k, In k keywords -> ~ In NL k -> ~ substring k (data c).
Proof.
  intros Hc. unfold splitIntoChapters in Hc.
  apply removeDuplicateChapters_incl in Hc.
  destruct (segment_bodies_from_lines _ c Hc) as (body & Hbody & Hdata).
  unfold chapterBody in Hdata.
  destruct (trim (join body)) as [|x r] eqn:Et; cbn [isEmpty] in Hdata;
    [now left|].
  right. intros k Hk Hnl Hsub.
  destruct k as [|y k].
  - (* the empty keyword filters every line out: there is no chapter *)
    destruct (empty_keyword_drops_everything keywords content Hk) as [_ Hp].
    rewrite Hp in Hc. destruct Hc.
  - assert (Hjoin : substring (y :: k) (join body)).
    { apply (substring_trans _ (trim (join body))); [|apply trim_substring].
      now rewrite Et, <- Hdata. }
    apply (substring_join _ _ Hnl ltac:(discriminate)) in Hjoin as (l & Hl & Hs).
    apply Hbody in Hl.
    destruct (processed_lines_hold_no_keyword keywords content l Hl) as [Hno _].
    apply (Hno (y :: k)); [assumption | discriminate | assumption].
Qed.

Lemma keywords_absent_from_bodies_witness :
  let c := mkChapter (js "第1章") (js "你好" ++ NL :: js "世界") in
  data c = placeholder
  \/ forall k, In k [js "广告"] -> ~ In NL k -> ~ substring k (data c).
Proof.
  cbv zeta.
  apply (keywords_absent_from_bodies [js "广告"]
           (js "第一章" ++ NL :: js "你好" ++ NL :: js "本站广告位招租"
              ++ NL :: js "世界")).
  left. reflexivity.
Defined.

(** ** Reading the text *)

(** X25.  Without keywords the text read comes back as it is, less one
    leading byte-order mark, whether the filter is on or off; a second
    mark stays. *)
Theorem processContent_without_keywords (b : bool) (content : jsstring) :
  processContent (mkOptions b []) content = stripBOM content
  /\ stripBOM (BOM :: content) = content
  /\ (forall c r, content = c :: r -> c <> BOM -> stripBOM content = content).
Proof.
  split; [|split].
  - unfold processContent. cbn [filterAds adKeywords]. destruct b; [|reflexivity].
    replace (filterLines [] (split (stripBOM content))) with (split (stripBOM content)).
    + apply join_split.
    + symmetry. unfold filterLines. apply filter_all. reflexivity.
  - reflexivity.
  - intros c r -> Hc. cbn [stripBOM]. now destruct (Z.eqb_spec c BOM).
Qed.
